(** * Envelope encryption (src/encryption.py): model and properties

    The module [encryption.py] wraps PyNaCl's [Box] construction in a
    versioned envelope.  This file embeds the class [Encryption] as Rocq
    functions and proves the properties stated about it.

    Layout:
    - [PyBase]: bytes, [str], exceptions and the two monads (pure results,
      and results with the state of the outside world);
    - [Utf8]: [str.encode("utf-8")] and [bytes.decode("utf-8")];
    - [Base64]: [base64.b64encode], [base64.b64decode] (the lenient default)
      and [bytes.fromhex];
    - [Enc]: the class [Encryption], over an interface of the NaCl
      primitives (a Section); [Toy] instantiates that interface;
    - the theorems.

    Exception messages are not modelled: an exception is its class. *)

From Stdlib Require Import ZArith List Lia Bool.
From Stdlib Require Import Strings.Byte Strings.Ascii Strings.String.
From stdpp Require Import base gmap list.
Import ListNotations.
Open Scope Z_scope.

(** ** Python values *)

Module PyBase.

(** [bytes]: a sequence of octets. *)
Definition bytes := list byte.

(** [str]: a sequence of Unicode code points, as Python has it. *)
Definition str := list Z.

(** The integer value of a byte, as [b[i]] gives it. *)
Definition byte_val (b : byte) : Z := Z.of_N (Byte.to_N b).

(** [bytes([z])] for [0 <= z < 256] (outside that range the value is never
    used: every call site below stays within it). *)
Definition byte_of (z : Z) : byte :=
  match Byte.of_N (Z.to_N z) with
  | Some b => b
  | None => x00
  end.

(** A str literal: the code points of an ASCII source literal. *)
Definition lit (s : string) : str :=
  List.map (fun a => Z.of_N (N_of_ascii a)) (list_ascii_of_string s).

(** [len(x)] as an integer. *)
Definition len {A} (l : list A) : Z := Z.of_nat (length l).

(** Exception classes: the three of [encryption.py], and those the
    libraries it calls can raise. *)
Inductive exn : Type :=
| InvalidKeyError       (* encryption.InvalidKeyError(EncryptionError) *)
| InvalidMessageError   (* encryption.InvalidMessageError(EncryptionError) *)
| EncryptionError       (* encryption.EncryptionError(Exception) *)
| ValueError            (* builtin, also nacl.exceptions.ValueError *)
| TypeError             (* builtin, also nacl.exceptions.TypeError *)
| BinasciiError         (* binascii.Error *)
| UnicodeEncodeError
| UnicodeDecodeError
| KeyError
| CryptoError.          (* nacl.exceptions.CryptoError *)

#[global] Instance exn_eq_dec : EqDecision exn.
Proof. solve_decision. Defined.

(** The outcome of a call: a value, or a raised exception. *)
Inductive result (A : Type) : Type :=
| Ok (a : A)
| Raise (e : exn).
Arguments Ok {A} a.
Arguments Raise {A} e.

Definition rbind {A B} (r : result A) (k : A -> result B) : result B :=
  match r with
  | Ok a => k a
  | Raise e => Raise e
  end.

Definition rmap {A B} (f : A -> B) (r : result A) : result B :=
  rbind r (fun a => Ok (f a)).

(** [try: body / except Exception: raise e']. *)
Definition except_Exception {A} (body : result A) (e' : exn) : result A :=
  match body with
  | Ok a => Ok a
  | Raise _ => Raise e'
  end.

(** [if c: raise e]. *)
Definition raise_if (c : bool) (e : exn) : result unit :=
  if c then Raise e else Ok tt.

(** The kinds a caller is meant to see. *)
Definition is_public_kind (e : exn) : bool :=
  match e with
  | InvalidKeyError | InvalidMessageError | EncryptionError => true
  | _ => false
  end.

End PyBase.
Export PyBase.

Declare Scope result_scope.
Delimit Scope result_scope with result.
Notation "x <- r ;; k" := (rbind r (fun x => k))
  (at level 100, r at next level, right associativity) : result_scope.
Notation "r ;;; k" := (rbind r (fun _ => k))
  (at level 100, right associativity) : result_scope.
Open Scope result_scope.

(** ** UTF-8 *)

Module Utf8.

(** The bytes of one code point; [None] for a surrogate or a value that is
    no code point, where [str.encode] raises [UnicodeEncodeError]. *)
Definition encode_cp (c : Z) : option bytes :=
  if c <? 0 then None
  else if c <? 0x80 then Some [byte_of c]
  else if c <? 0x800 then
    Some [byte_of (0xC0 + c / 64); byte_of (0x80 + c mod 64)]
  else if c <? 0x10000 then
    if (0xD800 <=? c) && (c <=? 0xDFFF) then None
    else Some [byte_of (0xE0 + c / 4096);
               byte_of (0x80 + (c / 64) mod 64);
               byte_of (0x80 + c mod 64)]
  else if c <? 0x110000 then
    Some [byte_of (0xF0 + c / 262144);
          byte_of (0x80 + (c / 4096) mod 64);
          byte_of (0x80 + (c / 64) mod 64);
          byte_of (0x80 + c mod 64)]
  else None.

(** [s.encode("utf-8")]. *)
Fixpoint encode (s : str) : result bytes :=
  match s with
  | [] => Ok []
  | c :: s' =>
      match encode_cp c with
      | None => Raise UnicodeEncodeError
      | Some bs => rmap (app bs) (encode s')
      end
  end.

(** A continuation byte [10xxxxxx]. *)
Definition is_cont (v : Z) : bool := (0x80 <=? v) && (v <? 0xC0).

(** [b.decode("utf-8")], strict: overlong forms, surrogates and values
    above U+10FFFF raise [UnicodeDecodeError]. *)
Fixpoint decode (bs : bytes) : result str :=
  match bs with
  | [] => Ok []
  | b0 :: r0 =>
    let v0 := byte_val b0 in
    if v0 <? 0x80 then rmap (cons v0) (decode r0)
    else if v0 <? 0xC0 then Raise UnicodeDecodeError
    else if v0 <? 0xE0 then
      match r0 with
      | b1 :: r1 =>
        let v1 := byte_val b1 in
        let c := (v0 - 0xC0) * 64 + (v1 - 0x80) in
        if is_cont v1 && (0x80 <=? c) then rmap (cons c) (decode r1)
        else Raise UnicodeDecodeError
      | _ => Raise UnicodeDecodeError
      end
    else if v0 <? 0xF0 then
      match r0 with
      | b1 :: b2 :: r2 =>
        let v1 := byte_val b1 in
        let v2 := byte_val b2 in
        let c := (v0 - 0xE0) * 4096 + (v1 - 0x80) * 64 + (v2 - 0x80) in
        if is_cont v1 && is_cont v2 && (0x800 <=? c)
           && negb ((0xD800 <=? c) && (c <=? 0xDFFF))
        then rmap (cons c) (decode r2)
        else Raise UnicodeDecodeError
      | _ => Raise UnicodeDecodeError
      end
    else if v0 <? 0xF8 then
      match r0 with
      | b1 :: b2 :: b3 :: r3 =>
        let v1 := byte_val b1 in
        let v2 := byte_val b2 in
        let v3 := byte_val b3 in
        let c := (v0 - 0xF0) * 262144 + (v1 - 0x80) * 4096
                 + (v2 - 0x80) * 64 + (v3 - 0x80) in
        if is_cont v1 && is_cont v2 && is_cont v3
           && (0x10000 <=? c) && (c <? 0x110000)
        then rmap (cons c) (decode r3)
        else Raise UnicodeDecodeError
      | _ => Raise UnicodeDecodeError
      end
    else Raise UnicodeDecodeError
  end.

End Utf8.

(** ** Base64 and hex (CPython's [base64] and [binascii], 3.11 and later) *)

Module Base64.

Definition table_b2a_base64 : str :=
  lit "ABCDEFGHIJKLMNOPQRSTUVWXYZabcdefghijklmnopqrstuvwxyz0123456789+/".

(** ['='] *)
Definition BASE64_PAD : Z := 61.

Definition b2a (v : Z) : byte := byte_of (nth (Z.to_nat v) table_b2a_base64 0).

(** The inverse table: the 6-bit value of an alphabet character, [None]
    where the C table holds a value of 64 or more. *)
Definition table_a2b_base64 (c : Z) : option Z :=
  if (65 <=? c) && (c <=? 90) then Some (c - 65)
  else if (97 <=? c) && (c <=? 122) then Some (c - 71)
  else if (48 <=? c) && (c <=? 57) then Some (c + 4)
  else if c =? 43 then Some 62
  else if c =? 47 then Some 63
  else None.

(** [binascii.b2a_base64(data, newline=False)]: three bytes give four
    characters, a last group of one or two bytes is padded with ['=']. *)
Fixpoint b2a_base64 (data : bytes) : bytes :=
  match data with
  | [] => []
  | [b0] =>
      let v0 := byte_val b0 in
      [b2a (Z.shiftr v0 2); b2a (Z.shiftl (Z.land v0 3) 4);
       byte_of BASE64_PAD; byte_of BASE64_PAD]
  | [b0; b1] =>
      let v0 := byte_val b0 in
      let v1 := byte_val b1 in
      [b2a (Z.shiftr v0 2);
       b2a (Z.lor (Z.shiftl (Z.land v0 3) 4) (Z.shiftr v1 4));
       b2a (Z.shiftl (Z.land v1 0xf) 2);
       byte_of BASE64_PAD]
  | b0 :: b1 :: b2 :: rest =>
      let v0 := byte_val b0 in
      let v1 := byte_val b1 in
      let v2 := byte_val b2 in
      b2a (Z.shiftr v0 2)
      :: b2a (Z.lor (Z.shiftl (Z.land v0 3) 4) (Z.shiftr v1 4))
      :: b2a (Z.lor (Z.shiftl (Z.land v1 0xf) 2) (Z.shiftr v2 6))
      :: b2a (Z.land v2 0x3f)
      :: b2a_base64 rest
  end.

(** [base64.b64encode(data)]. *)
Definition b64encode (data : bytes) : bytes := b2a_base64 data.

(** [base64.b64encode(data)] read as text: the code points of its
    characters. *)
Definition b64text (data : bytes) : str := List.map byte_val (b64encode data).

(** The loop of [binascii.a2b_base64(data, strict_mode=False)], from the
    state ([quad_pos], [leftchar], [pads]).  A character outside the
    alphabet is skipped ([continue]); a pad that completes a quad ends the
    decoding ([goto done]) whatever follows; at the end of the input an
    incomplete quad raises [binascii.Error]. *)
Fixpoint a2b_loop (data : bytes) (quad_pos : nat) (leftchar : Z) (pads : nat)
  : result bytes :=
  match data with
  | [] =>
      match quad_pos with
      | O => Ok []
      | _ => Raise BinasciiError
      end
  | ch :: data' =>
      let this_ch := byte_val ch in
      if this_ch =? BASE64_PAD then
        if (2 <=? quad_pos)%nat then
          if (4 <=? quad_pos + S pads)%nat then Ok []
          else a2b_loop data' quad_pos leftchar (S pads)
        else a2b_loop data' quad_pos leftchar pads
      else
        match table_a2b_base64 this_ch with
        | None => a2b_loop data' quad_pos leftchar pads
        | Some v =>
            match quad_pos with
            | 0%nat => a2b_loop data' 1 v 0
            | 1%nat =>
                rmap (cons (byte_of (Z.lor (Z.shiftl leftchar 2) (Z.shiftr v 4))))
                     (a2b_loop data' 2 (Z.land v 0x0f) 0)
            | 2%nat =>
                rmap (cons (byte_of (Z.lor (Z.shiftl leftchar 4) (Z.shiftr v 2))))
                     (a2b_loop data' 3 (Z.land v 0x03) 0)
            | _ =>
                rmap (cons (byte_of (Z.lor (Z.shiftl leftchar 6) v)))
                     (a2b_loop data' 0 0 0)
            end
        end
  end.

Definition a2b_base64 (data : bytes) : result bytes := a2b_loop data 0 0 0.

(** [s.encode("ascii")]. *)
Definition ascii_encode (s : str) : result bytes :=
  if forallb (fun c => (0 <=? c) && (c <? 128)) s
  then Ok (List.map byte_of s)
  else Raise UnicodeEncodeError.

(** [base64.b64decode(s)] on a [str], with the default [validate=False]:
    a non-ASCII character raises [ValueError]; the rest is
    [binascii.a2b_base64]. *)
Definition b64decode (s : str) : result bytes :=
  match ascii_encode s with
  | Ok data => a2b_base64 data
  | Raise _ => Raise ValueError
  end.

(** [_PyLong_DigitValue] below 16. *)
Definition hex_digit_value (c : Z) : option Z :=
  if (48 <=? c) && (c <=? 57) then Some (c - 48)
  else if (97 <=? c) && (c <=? 102) then Some (c - 87)
  else if (65 <=? c) && (c <=? 70) then Some (c - 55)
  else None.

(** [Py_ISSPACE]: space, and the controls 9 to 13. *)
Definition is_space (c : Z) : bool := (c =? 32) || ((9 <=? c) && (c <=? 13)).

(** [bytes.fromhex(s)]: pairs of hex digits, white space allowed between
    pairs; anything else raises [ValueError]. *)
Fixpoint fromhex (s : str) : result bytes :=
  match s with
  | [] => Ok []
  | c :: s' =>
      if is_space c then fromhex s'
      else
        match hex_digit_value c, s' with
        | Some top, d :: s'' =>
            match hex_digit_value d with
            | Some bot => rmap (cons (byte_of (Z.shiftl top 4 + bot))) (fromhex s'')
            | None => Raise ValueError
            end
        | _, _ => Raise ValueError
        end
  end.

(** Text in the canonical form of RFC 4648: alphabet characters in groups
    of four, the last group possibly ending in one or two ['=']. *)
Definition is_alphabet (c : Z) : bool :=
  match table_a2b_base64 c with
  | Some _ => true
  | None => false
  end.

(** A character the lenient decoder looks at; any other is skipped. *)
Definition is_data_char (c : Z) : bool := (c =? BASE64_PAD) || is_alphabet c.

Fixpoint is_base64_text (s : str) : bool :=
  match s with
  | [] => true
  | [c0; c1; c2; c3] =>
      is_alphabet c0 && is_alphabet c1
      && ((is_alphabet c2 && (is_alphabet c3 || (c3 =? BASE64_PAD)))
          || ((c2 =? BASE64_PAD) && (c3 =? BASE64_PAD)))
  | c0 :: c1 :: c2 :: c3 :: rest =>
      is_alphabet c0 && is_alphabet c1 && is_alphabet c2 && is_alphabet c3
      && is_base64_text rest
  | _ => false
  end.

End Base64.

(** ** PyNaCl *)

Module NaClLib.

(** The primitives of libsodium that [nacl.public] and [nacl.utils] call,
    and the entropy source.  They are outside the repository: the class
    [Encryption] is modelled over any implementation of this interface. *)
Class NaCl : Type := {
  (** the state of the operating system's random generator *)
  rng : Type;
  (** [os.urandom(size)] *)
  os_random : nat -> rng -> bytes * rng;
  (** [crypto_scalarmult_base(sk)]: the public key of a secret key *)
  crypto_scalarmult_base : bytes -> bytes;
  (** [crypto_box_beforenm(pk, sk)]: the shared key; libsodium refuses
      some public keys, and PyNaCl then raises [CryptoError] *)
  crypto_box_beforenm : bytes -> bytes -> option bytes;
  (** [crypto_box_afternm(message, nonce, k)] *)
  crypto_box_afternm : bytes -> bytes -> bytes -> bytes;
  (** [crypto_box_open_afternm(ciphertext, nonce, k)]; [None] when the
      authenticator does not verify *)
  crypto_box_open_afternm : bytes -> bytes -> bytes -> option bytes
}.

(** The entry points of PyNaCl that [encryption.py] uses. *)
Inductive nacl_call : Type :=
| Call_random (size : nat)
| Call_PrivateKey
| Call_PublicKey
| Call_Box
| Call_Box_encrypt
| Call_Box_decrypt.

Section Monad.
Context {N : NaCl}.

(** What a call can change outside its own variables: the random
    generator, and the record of calls made into PyNaCl. *)
Record world : Type := World {
  entropy : rng;
  nacl_calls : list nacl_call
}.

(** A computation that may raise and may use the world. *)
Definition M (A : Type) : Type := world -> result A * world.

Definition ret {A} (a : A) : M A := fun w => (Ok a, w).

Definition raise {A} (e : exn) : M A := fun w => (Raise e, w).

Definition bind {A B} (m : M A) (k : A -> M B) : M B :=
  fun w =>
    match m w with
    | (Ok a, w') => k a w'
    | (Raise e, w') => (Raise e, w')
    end.

(** A call that does not touch the world. *)
Definition lift {A} (r : result A) : M A := fun w => (r, w).

(** [try: body / except ... as e: handler e]. *)
Definition try_except {A} (body : M A) (handler : exn -> M A) : M A :=
  fun w =>
    match body w with
    | (Ok a, w') => (Ok a, w')
    | (Raise e, w') => handler e w'
    end.

(** The world after one more call into PyNaCl. *)
Definition log_call (c : nacl_call) (w : world) : world :=
  World (entropy w) (nacl_calls w ++ [c]).

Definition record_call (c : nacl_call) : M unit :=
  fun w => (Ok tt, log_call c w).

End Monad.

Declare Scope M_scope.
Delimit Scope M_scope with M.
Notation "x <- m ;; k" := (bind m (fun x => k))
  (at level 100, m at next level, right associativity) : M_scope.
Notation "m ;;; k" := (bind m (fun _ => k))
  (at level 100, right associativity) : M_scope.

Section Objects.
Context {N : NaCl}.

Definition PublicKey_SIZE : Z := 32.
Definition PrivateKey_SIZE : Z := 32.
Definition Box_NONCE_SIZE : Z := 24.

(** [nacl.public.PublicKey]: [bytes(pk)] and [pk.encode()] are [pk_raw]. *)
Record PublicKey : Type := { pk_raw : bytes }.

(** [nacl.public.PrivateKey]: [bytes(sk)] is [sk_raw]. *)
Record PrivateKey : Type := { sk_raw : bytes; public_key : PublicKey }.

(** [nacl.public.Box]. *)
Record Box : Type := { shared_key : bytes }.

(** [PublicKey.__init__]: a length other than 32 raises [ValueError]. *)
Definition PublicKey_init (raw : bytes) : result PublicKey :=
  raise_if (negb (len raw =? PublicKey_SIZE)) ValueError ;;;
  Ok {| pk_raw := raw |}.

(** [PrivateKey.__init__]: a length other than 32 raises [TypeError]; the
    public key is computed at once. *)
Definition PrivateKey_init (raw : bytes) : result PrivateKey :=
  raise_if (negb (len raw =? PrivateKey_SIZE)) TypeError ;;;
  pk <- PublicKey_init (crypto_scalarmult_base raw) ;;
  Ok {| sk_raw := raw; public_key := pk |}.

(** [Box.__init__]. *)
Definition Box_init (sk : PrivateKey) (pk : PublicKey) : result Box :=
  match crypto_box_beforenm (pk_raw pk) (sk_raw sk) with
  | Some k => Ok {| shared_key := k |}
  | None => Raise CryptoError
  end.

(** [Box.encrypt(plaintext, nonce)]: the result carries the nonce in
    front of the ciphertext. *)
Definition Box_encrypt_pure (box : Box) (plaintext nonce : bytes) : result bytes :=
  raise_if (negb (len nonce =? Box_NONCE_SIZE)) ValueError ;;;
  Ok (nonce ++ crypto_box_afternm plaintext nonce (shared_key box)).

(** [Box.decrypt(ciphertext, nonce)]. *)
Definition Box_decrypt_pure (box : Box) (ciphertext nonce : bytes) : result bytes :=
  raise_if (negb (len nonce =? Box_NONCE_SIZE)) ValueError ;;;
  match crypto_box_open_afternm ciphertext nonce (shared_key box) with
  | Some plaintext => Ok plaintext
  | None => Raise CryptoError
  end.

Open Scope M_scope.

(** [nacl.utils.random(size)]. *)
Definition utils_random (size : nat) : M bytes :=
  fun w =>
    let drawn := os_random size (entropy w) in
    (Ok (fst drawn), World (snd drawn) (nacl_calls w ++ [Call_random size])).

Definition new_PublicKey (raw : bytes) : M PublicKey :=
  record_call Call_PublicKey ;;; lift (PublicKey_init raw).

Definition new_PrivateKey (raw : bytes) : M PrivateKey :=
  record_call Call_PrivateKey ;;; lift (PrivateKey_init raw).

(** [PrivateKey.generate()]. *)
Definition PrivateKey_generate : M PrivateKey :=
  raw <- utils_random 32 ;; new_PrivateKey raw.

Definition new_Box (sk : PrivateKey) (pk : PublicKey) : M Box :=
  record_call Call_Box ;;; lift (Box_init sk pk).

Definition Box_encrypt (box : Box) (plaintext nonce : bytes) : M bytes :=
  record_call Call_Box_encrypt ;;; lift (Box_encrypt_pure box plaintext nonce).

Definition Box_decrypt (box : Box) (ciphertext nonce : bytes) : M bytes :=
  record_call Call_Box_decrypt ;;; lift (Box_decrypt_pure box ciphertext nonce).

End Objects.

End NaClLib.
Export NaClLib.

(** ** The class [Encryption] *)

Module Enc.

(** A Python [dict] from [str] to [str]. *)
Abbreviation dict := (gmap str str).

Section Encryption.
Context {N : NaCl}.

(** [d[k]] *)
Definition getitem (d : dict) (k : str) : result str :=
  match d !! k with
  | Some v => Ok v
  | None => Raise KeyError
  end.

(** [@dataclass class EncryptedMessage] *)
Record EncryptedMessage : Type := {
  version : str;
  nonce : str;
  ephemPublicKey : str;
  ciphertext : str
}.

(** [vars(encrypted_data)]: the fields as a dict. *)
Definition vars (e : EncryptedMessage) : dict :=
  <[lit "version" := version e]>
    (<[lit "nonce" := nonce e]>
       (<[lit "ephemPublicKey" := ephemPublicKey e]>
          (<[lit "ciphertext" := ciphertext e]> ∅))).

Definition VERSION : str := lit "x25519-xsalsa20-poly1305".
Definition MAX_MESSAGE_LENGTH : Z := 1024 * 1024.

(** [not s] on a str *)
Definition empty_str (s : str) : bool :=
  match s with
  | [] => true
  | _ => false
  end.

(** [Encryption._validate_message].  The [isinstance(msg, str)] test holds
    by typing. *)
Definition _validate_message (msg : str) : result unit :=
  encoded <- Utf8.encode msg ;;
  raise_if (len encoded >? MAX_MESSAGE_LENGTH) InvalidMessageError ;;;
  raise_if (empty_str msg) InvalidMessageError.

(** [Encryption._validate_public_key] *)
Definition _validate_public_key (key : str) : result unit :=
  raise_if (empty_str key) InvalidKeyError ;;;
  except_Exception
    (decoded_key <- Base64.b64decode key ;;
     raise_if (negb (len decoded_key =? PublicKey_SIZE)) InvalidKeyError)
    InvalidKeyError.

(** [base64.b64encode(data).decode("utf-8")] *)
Definition b64encode_str (data : bytes) : result str :=
  Utf8.decode (Base64.b64encode data).

(** [Encryption._encode_base64] *)
Definition _encode_base64 (data : bytes) : result str :=
  except_Exception (b64encode_str data) EncryptionError.

(** [Encryption._decode_base64] *)
Definition _decode_base64 (data : str) : result bytes :=
  except_Exception (Base64.b64decode data) EncryptionError.

(** The class of the exception a caller sees when [e] reaches the two
    handlers below. *)
Definition surfaced (e : exn) : exn :=
  match e with
  | InvalidKeyError => InvalidKeyError
  | InvalidMessageError => InvalidMessageError
  | _ => EncryptionError
  end.

(** The two handlers that close [encrypt_message] and [decrypt_message]:
    [except (InvalidKeyError, InvalidMessageError): raise] and
    [except Exception as e: raise EncryptionError(...)]. *)
Definition reraise_or_wrap {A} (e : exn) : M A :=
  match e with
  | InvalidKeyError => raise InvalidKeyError
  | InvalidMessageError => raise InvalidMessageError
  | _ => raise EncryptionError
  end.

Open Scope M_scope.

(** The [try] block of [encrypt_message]. *)
Definition encrypt_message_body (receiver_public_key msg : str) : M dict :=
  lift (_validate_message msg) ;;;
  lift (_validate_public_key receiver_public_key) ;;;
  ephemeral_keypair <- PrivateKey_generate ;;
  pub_key_bytes <- lift (Base64.b64decode receiver_public_key) ;;
  receiver_key <- new_PublicKey pub_key_bytes ;;
  msg_bytes <- lift (Utf8.encode msg) ;;
  nonce <- utils_random 24 ;;
  box <- new_Box ephemeral_keypair receiver_key ;;
  encrypted <- Box_encrypt box msg_bytes nonce ;;
  let encrypted_message := drop 24 encrypted in
  nonce_text <- lift (_encode_base64 nonce) ;;
  ephem_text <- lift (_encode_base64 (pk_raw (public_key ephemeral_keypair))) ;;
  cipher_text <- lift (_encode_base64 encrypted_message) ;;
  let encrypted_data :=
    {| version := VERSION;
       nonce := nonce_text;
       ephemPublicKey := ephem_text;
       ciphertext := cipher_text |} in
  ret (vars encrypted_data).

(** [Encryption.encrypt_message] *)
Definition encrypt_message (receiver_public_key msg : str) : M dict :=
  try_except (encrypt_message_body receiver_public_key msg) reraise_or_wrap.

Definition required_fields : gset str :=
  {[ lit "version"; lit "nonce"; lit "ephemPublicKey"; lit "ciphertext" ]}.

(** The [try] block of [decrypt_message]. *)
Definition decrypt_message_body (private_key : str) (encrypted_data : dict) : M str :=
  (* all(field in encrypted_data for field in required_fields) *)
  lift (raise_if (negb (bool_decide (required_fields ⊆ dom encrypted_data)))
          InvalidMessageError) ;;;
  version <- lift (getitem encrypted_data (lit "version")) ;;
  lift (raise_if (negb (bool_decide (version = VERSION))) InvalidMessageError) ;;;
  receiver_private_key <-
    try_except
      (priv_key_bytes <- lift (_decode_base64 private_key) ;;
       new_PrivateKey priv_key_bytes)
      (fun _ => raise InvalidKeyError) ;;
  components <-
    try_except
      (nonce_text <- lift (getitem encrypted_data (lit "nonce")) ;;
       nonce <- lift (_decode_base64 nonce_text) ;;
       ephem_text <- lift (getitem encrypted_data (lit "ephemPublicKey")) ;;
       ephem_bytes <- lift (_decode_base64 ephem_text) ;;
       ephem_public_key <- new_PublicKey ephem_bytes ;;
       cipher_text <- lift (getitem encrypted_data (lit "ciphertext")) ;;
       ciphertext <- lift (_decode_base64 cipher_text) ;;
       ret (nonce, ephem_public_key, ciphertext))
      (fun _ => raise InvalidMessageError) ;;
  let '(nonce, ephem_public_key, ciphertext) := components in
  box <- new_Box receiver_private_key ephem_public_key ;;
  decrypted_message <- Box_decrypt box ciphertext nonce ;;
  try_except
    (lift (Utf8.decode decrypted_message))
    (fun e =>
       match e with
       | UnicodeDecodeError => raise EncryptionError
       | _ => raise e
       end).

(** [Encryption.decrypt_message] *)
Definition decrypt_message (private_key : str) (encrypted_data : dict) : M str :=
  try_except (decrypt_message_body private_key encrypted_data) reraise_or_wrap.

(** [Encryption.generate_key_pair] *)
Definition generate_key_pair : M dict :=
  try_except
    (private_key <- PrivateKey_generate ;;
     let public_key := public_key private_key in
     private_text <- lift (b64encode_str (sk_raw private_key)) ;;
     public_text <- lift (b64encode_str (pk_raw public_key)) ;;
     ret (<[lit "privateKey" := private_text]>
            (<[lit "publicKey" := public_text]> ∅)))
    (fun _ => raise EncryptionError).

(** [Encryption.get_public_key] *)
Definition get_public_key (private_key : str) : M str :=
  try_except
    (priv_key_bytes <- lift (Base64.b64decode private_key) ;;
     private_key_obj <- new_PrivateKey priv_key_bytes ;;
     let public_key := public_key private_key_obj in
     lift (b64encode_str (pk_raw public_key)))
    (fun _ => raise InvalidKeyError).

(** The loop [for field in required_fields] of
    [validate_encrypted_message_format], over the fields in the order the
    set yields them.  The [isinstance(..., str)] test holds by typing. *)
Fixpoint check_fields (fields : list str) (encrypted_data : dict) : result unit :=
  match fields with
  | [] => Ok tt
  | field :: rest =>
      (value <- getitem encrypted_data field ;;
       raise_if (empty_str value) InvalidMessageError ;;;
       check_fields rest encrypted_data)%result
  end.

(** [Encryption.validate_encrypted_message_format].  The
    [isinstance(encrypted_data, dict)] test holds by typing. *)
Definition validate_encrypted_message_format (encrypted_data : dict) : result unit :=
  (let missing := required_fields ∖ dom encrypted_data in
   raise_if (negb (bool_decide (missing = ∅))) InvalidMessageError ;;;
   check_fields (elements required_fields) encrypted_data)%result.

(** [Encryption.is_valid_key] *)
Definition is_valid_key (key : str) (key_type : str) : M bool :=
  try_except
    (decoded_key <- lift (Base64.b64decode key) ;;
     if bool_decide (key_type = lit "public")
     then ret (len decoded_key =? PublicKey_SIZE)
     else (new_PrivateKey decoded_key ;;; ret true))
    (fun _ => ret false).

(** The argument [key: Union[str, bytes]] of [format_key]. *)
Inductive key_arg : Type :=
| KeyStr (s : str)
| KeyBytes (b : bytes).

(** [Encryption.format_key].  The chain of [if]/[elif] tests the encoding
    together with [isinstance(key, ...)]: for [bytes] only the first test
    can hold, for a [str] only the second and the third. *)
Definition format_key (key : key_arg) (input_encoding : str) : result str :=
  except_Exception
    (match key with
     | KeyBytes b =>
         if bool_decide (input_encoding = lit "raw") then b64encode_str b
         else Raise InvalidKeyError
     | KeyStr s =>
         if bool_decide (input_encoding = lit "base64") then
           (Base64.b64decode s ;;; Ok s)%result
         else if bool_decide (input_encoding = lit "hex") then
           (data <- Base64.fromhex s ;; b64encode_str data)%result
         else Raise InvalidKeyError
     end)
    InvalidKeyError.

End Encryption.

(** The text [t], when present, is Base64 for [n] bytes. *)
Definition decodes_to (t : option str) (n : Z) : Prop :=
  exists s data, t = Some s /\ Base64.b64decode s = Ok data /\ len data = n.



End Enc.

(** ** An implementation of the interface

    A small implementation of [NaCl] on which the functions above run:
    the generator is a counter, the public key of a secret key is the key
    itself, every pair of keys shares one key, and a box is the message
    behind a 16-byte authenticator of zeros.  It offers no secrecy; it is
    there to execute the model. *)

Module Toy.

Definition tag : bytes := repeat x00 16.

Definition seal (message nonce k : bytes) : bytes := tag ++ message.

Definition open (ciphertext nonce k : bytes) : option bytes :=
  if (16 <=? len ciphertext)
     && forallb (fun b => byte_val b =? 0) (take 16 ciphertext)
  then Some (drop 16 ciphertext)
  else None.

Definition random (size : nat) (g : nat) : bytes * nat :=
  (repeat (byte_of (Z.of_nat g mod 256)) size, S g).

Definition nacl : NaCl := {|
  rng := nat;
  os_random := random;
  crypto_scalarmult_base := fun sk => sk;
  crypto_box_beforenm := fun pk sk => Some (repeat x01 32);
  crypto_box_afternm := seal;
  crypto_box_open_afternm := open
|}.

(** The world before any call. *)
Definition w0 : @world nacl := @World nacl 0%nat [].

(** One run: the receiver's keys (drawn from [w0]), a message, and the
    envelope [encrypt_message] builds for it from [w0]. *)
Definition receiver_private : str := Base64.b64text (repeat x00 32).

Definition receiver_public : str := Base64.b64text (repeat x00 32).

Definition key_pair : Enc.dict :=
  <[lit "privateKey" := receiver_private]>
    (<[lit "publicKey" := receiver_public]> ∅).

Definition w_generated : @world nacl :=
  @World nacl 1%nat [Call_random 32; Call_PrivateKey].

Definition hello : str := lit "hello".

Definition envelope : Enc.dict :=
  Enc.vars {| Enc.version := Enc.VERSION;
              Enc.nonce := Base64.b64text (repeat x01 24);
              Enc.ephemPublicKey := Base64.b64text (repeat x00 32);
              Enc.ciphertext :=
                Base64.b64text (tag ++ List.map byte_of hello) |}.

Definition w_encrypted : @world nacl :=
  @World nacl 2%nat
    [Call_random 32; Call_PrivateKey; Call_PublicKey; Call_random 24;
     Call_Box; Call_Box_encrypt].

(** The envelope with one field replaced. *)
Definition with_field (name value : str) : Enc.dict :=
  <[name := value]> envelope.

(** A key with a character outside the Base64 alphabet in front. *)
Definition key_with_bang : str := lit "!" ++ receiver_public.

End Toy.

(** ** Finite checks

    Facts about the 6-bit groups of Base64 range over bytes; they are
    decided by running a boolean test over every value. *)

Module Checks.
Import Base64.

Definition zrange (n : nat) : list Z := List.map Z.of_nat (seq 0 n).

Definition forall_below (n : nat) (P : Z -> bool) : bool := forallb P (zrange n).

Definition in6 (v : Z) : bool := (0 <=? v) && (v <? 64).

(** A value below 64 becomes an ASCII alphabet character, not the pad, that
    the inverse table maps back. *)
Definition check_b2a (v : Z) : bool :=
  let c := byte_val (b2a v) in
  (c <? 128) && negb (c =? BASE64_PAD)
  && match table_a2b_base64 c with
     | Some v' => v' =? v
     | None => false
     end.

(** The first two characters of a group give back its first byte. *)
Definition check_hi (v0 v1 : Z) : bool :=
  let c0 := Z.shiftr v0 2 in
  let c1 := Z.lor (Z.shiftl (Z.land v0 3) 4) (Z.shiftr v1 4) in
  in6 c0 && in6 c1
  && (Z.lor (Z.shiftl c0 2) (Z.shiftr c1 4) =? v0)
  && (Z.land c1 0x0f =? Z.shiftr v1 4).

(** The last two characters of a group give back its second and third
    byte. *)
Definition check_lo (v1 v2 : Z) : bool :=
  let c2 := Z.lor (Z.shiftl (Z.land v1 0xf) 2) (Z.shiftr v2 6) in
  let c3 := Z.land v2 0x3f in
  in6 c2 && in6 c3
  && (Z.lor (Z.shiftl (Z.shiftr v1 4) 4) (Z.shiftr c2 2) =? v1)
  && (Z.lor (Z.shiftl (Z.land c2 0x03) 6) c3 =? v2).

(** A last group of one byte. *)
Definition check_tail1 (v0 : Z) : bool :=
  let c0 := Z.shiftr v0 2 in
  let c1 := Z.shiftl (Z.land v0 3) 4 in
  in6 c0 && in6 c1 && (Z.lor (Z.shiftl c0 2) (Z.shiftr c1 4) =? v0).

(** A last group of two bytes. *)
Definition check_tail2 (v0 v1 : Z) : bool :=
  let c1 := Z.lor (Z.shiftl (Z.land v0 3) 4) (Z.shiftr v1 4) in
  let c2 := Z.shiftl (Z.land v1 0xf) 2 in
  in6 c2 && (Z.lor (Z.shiftl (Z.land c1 0x0f) 4) (Z.shiftr c2 2) =? v1).

End Checks.

(** * Properties *)

Import Enc Base64.

(** ** Bytes *)

Arguments byte_val : simpl never.
Arguments byte_of : simpl never.

Lemma byte_val_range (b : byte) : 0 <= byte_val b < 256.
Proof.
  unfold byte_val. pose proof (Byte.to_N_bounded b). lia.
Qed.

Lemma byte_of_val (b : byte) : byte_of (byte_val b) = b.
Proof.
  unfold byte_of, byte_val. rewrite N2Z.id, Byte.of_to_N. reflexivity.
Qed.

Lemma byte_val_of (z : Z) : 0 <= z < 256 -> byte_val (byte_of z) = z.
Proof.
  intros Hz. unfold byte_of, byte_val.
  destruct (Byte.of_N (Z.to_N z)) as [b|] eqn:E.
  - apply Byte.to_of_N in E. rewrite E. lia.
  - apply Byte.of_N_None_iff in E. lia.
Qed.

Lemma len_app {A} (l1 l2 : list A) : len (l1 ++ l2) = len l1 + len l2.
Proof. unfold len. rewrite length_app. lia. Qed.

Lemma len_nonneg {A} (l : list A) : 0 <= len l.
Proof. unfold len. lia. Qed.

(** ** UTF-8: decoding undoes encoding *)

Section Utf8Facts.
Import Utf8.

Ltac split_ltb :=
  repeat match goal with
  | |- context [Z.ltb ?a ?b] => destruct (Z.ltb_spec a b)
  | |- context [Z.leb ?a ?b] => destruct (Z.leb_spec a b)
  | H : context [Z.ltb ?a ?b] |- _ => destruct (Z.ltb_spec a b)
  | H : context [Z.leb ?a ?b] |- _ => destruct (Z.leb_spec a b)
  end.

Lemma div_mod_64 (c : Z) : c = 64 * (c / 64) + c mod 64 /\ 0 <= c mod 64 < 64.
Proof.
  split; [apply Z.div_mod; lia | apply Z.mod_pos_bound; lia].
Qed.

Lemma split_cp2 (c : Z) :
  exists a r, c / 64 = a /\ c mod 64 = r /\ c = 64 * a + r /\ 0 <= r < 64.
Proof. exists (c / 64), (c mod 64). pose proof (div_mod_64 c). lia. Qed.

Lemma split_cp3 (c : Z) :
  exists a b r,
    c / 4096 = a /\ (c / 64) mod 64 = b /\ c mod 64 = r /\
    c = 4096 * a + 64 * b + r /\ 0 <= b < 64 /\ 0 <= r < 64.
Proof.
  exists (c / 4096), ((c / 64) mod 64), (c mod 64).
  replace (c / 4096) with (c / 64 / 64) by (rewrite Z.div_div by lia; reflexivity).
  pose proof (div_mod_64 c). pose proof (div_mod_64 (c / 64)). lia.
Qed.

Lemma split_cp4 (c : Z) :
  exists a b d r,
    c / 262144 = a /\ (c / 4096) mod 64 = b /\ (c / 64) mod 64 = d /\
    c mod 64 = r /\ c = 262144 * a + 4096 * b + 64 * d + r /\
    0 <= b < 64 /\ 0 <= d < 64 /\ 0 <= r < 64.
Proof.
  exists (c / 262144), ((c / 4096) mod 64), ((c / 64) mod 64), (c mod 64).
  replace (c / 262144) with (c / 64 / 64 / 64)
    by (rewrite !Z.div_div by lia; reflexivity).
  replace (c / 4096) with (c / 64 / 64) by (rewrite Z.div_div by lia; reflexivity).
  pose proof (div_mod_64 c). pose proof (div_mod_64 (c / 64)).
  pose proof (div_mod_64 (c / 64 / 64)). lia.
Qed.

Ltac eval_cmp :=
  repeat match goal with
  | |- context [Z.ltb ?a ?b] =>
      first [ rewrite (proj2 (Z.ltb_lt a b)) by lia
            | rewrite (proj2 (Z.ltb_ge a b)) by lia ]
  | |- context [Z.leb ?a ?b] =>
      first [ rewrite (proj2 (Z.leb_le a b)) by lia
            | rewrite (proj2 (Z.leb_gt a b)) by lia ]
  end.

Ltac decode_step :=
  cbn [decode app]; unfold is_cont;
  rewrite ?byte_val_of by lia;
  eval_cmp; cbn [andb negb];
  do 2 f_equal; lia.

Lemma decode_encode_cp (c : Z) (bs rest : bytes) :
  encode_cp c = Some bs ->
  decode (bs ++ rest) = rmap (cons c) (decode rest).
Proof.
  unfold encode_cp. intros H.
  destruct (Z.ltb_spec c 0); [discriminate|].
  destruct (Z.ltb_spec c 0x80).
  { injection H as <-. decode_step. }
  destruct (Z.ltb_spec c 0x800).
  { injection H as <-.
    destruct (split_cp2 c) as (a & r & -> & -> & Ec & Hr).
    decode_step. }
  destruct (Z.ltb_spec c 0x10000).
  { destruct (Z.leb_spec 0xD800 c), (Z.leb_spec c 0xDFFF);
      cbn [andb] in H; try discriminate; injection H as <-;
      destruct (split_cp3 c) as (a & b & r & -> & -> & -> & Ec & Hb & Hr);
      decode_step. }
  destruct (Z.ltb_spec c 0x110000); [|discriminate].
  injection H as <-.
  destruct (split_cp4 c) as (a & b & d & r & -> & -> & -> & -> & Ec & Hb & Hd & Hr).
  decode_step.
Qed.

Lemma utf8_decode_encode (s : str) (bs : bytes) :
  encode s = Ok bs -> decode bs = Ok s.
Proof.
  revert bs. induction s as [|c s IH]; intros bs H; simpl in H.
  - injection H as <-. reflexivity.
  - destruct (encode_cp c) as [cb|] eqn:Ec; [|discriminate].
    destruct (encode s) as [sb|] eqn:Es; simpl in H; [|discriminate].
    injection H as <-.
    rewrite (decode_encode_cp _ _ _ Ec), (IH sb eq_refl). reflexivity.
Qed.

(** ASCII bytes decode to their own values. *)
Lemma utf8_decode_ascii (bs : bytes) :
  Forall (fun b => byte_val b < 128) bs ->
  decode bs = Ok (List.map byte_val bs).
Proof.
  induction 1 as [|b bs Hb _ IH]; [reflexivity|].
  simpl. destruct (Z.ltb_spec (byte_val b) 128); [|lia].
  rewrite IH. reflexivity.
Qed.

(** The empty text is the only one with no bytes. *)
Lemma utf8_encode_nil (s : str) : encode s = Ok [] -> s = [].
Proof.
  destruct s as [|c s]; [reflexivity|]. simpl.
  destruct (encode_cp c) as [cb|] eqn:Ec; [|discriminate].
  destruct (encode s) as [sb|]; simpl; [|discriminate].
  intros H. injection H as H. apply app_eq_nil in H as [-> _].
  unfold encode_cp in Ec. split_ltb; simpl in Ec; discriminate.
Qed.

End Utf8Facts.

(** ** Base64: decoding undoes encoding *)

Section Base64Facts.
Import Base64 Checks.

Lemma forall_below_spec (n : nat) (P : Z -> bool) :
  forall_below n P = true ->
  forall z, 0 <= z < Z.of_nat n -> P z = true.
Proof.
  unfold forall_below, zrange. intros H z Hz.
  rewrite forallb_forall in H. apply H.
  apply in_map_iff. exists (Z.to_nat z). split; [lia|].
  apply in_seq. lia.
Qed.

Lemma b2a_ok (v : Z) : 0 <= v < 64 -> check_b2a v = true.
Proof.
  apply (forall_below_spec 64 check_b2a). vm_compute. reflexivity.
Qed.

Lemma hi_ok (v0 v1 : Z) :
  0 <= v0 < 256 -> 0 <= v1 < 256 -> check_hi v0 v1 = true.
Proof.
  intros H0 H1.
  apply (forall_below_spec 256 (fun b => check_hi v0 b)); [|exact H1].
  revert v0 H0.
  apply (forall_below_spec 256
           (fun a => forall_below 256 (fun b => check_hi a b))).
  vm_compute. reflexivity.
Qed.

Lemma lo_ok (v1 v2 : Z) :
  0 <= v1 < 256 -> 0 <= v2 < 256 -> check_lo v1 v2 = true.
Proof.
  intros H1 H2.
  apply (forall_below_spec 256 (fun b => check_lo v1 b)); [|exact H2].
  revert v1 H1.
  apply (forall_below_spec 256
           (fun a => forall_below 256 (fun b => check_lo a b))).
  vm_compute. reflexivity.
Qed.

Lemma tail1_ok (v0 : Z) : 0 <= v0 < 256 -> check_tail1 v0 = true.
Proof.
  apply (forall_below_spec 256 check_tail1). vm_compute. reflexivity.
Qed.

Lemma tail2_ok (v0 v1 : Z) :
  0 <= v0 < 256 -> 0 <= v1 < 256 -> check_tail2 v0 v1 = true.
Proof.
  intros H0 H1.
  apply (forall_below_spec 256 (fun b => check_tail2 v0 b)); [|exact H1].
  revert v0 H0.
  apply (forall_below_spec 256
           (fun a => forall_below 256 (fun b => check_tail2 a b))).
  vm_compute. reflexivity.
Qed.

Lemma in6_range (v : Z) : in6 v = true -> 0 <= v < 64.
Proof. unfold in6. lia. Qed.

(** What the loop does on the character of a 6-bit value. *)
Lemma a2b_loop_b2a (v : Z) (data : bytes) (q : nat) (l : Z) (p : nat) :
  0 <= v < 64 ->
  a2b_loop (b2a v :: data) q l p =
    match q with
    | 0%nat => a2b_loop data 1 v 0
    | 1%nat =>
        rmap (cons (byte_of (Z.lor (Z.shiftl l 2) (Z.shiftr v 4))))
             (a2b_loop data 2 (Z.land v 0x0f) 0)
    | 2%nat =>
        rmap (cons (byte_of (Z.lor (Z.shiftl l 4) (Z.shiftr v 2))))
             (a2b_loop data 3 (Z.land v 0x03) 0)
    | _ =>
        rmap (cons (byte_of (Z.lor (Z.shiftl l 6) v)))
             (a2b_loop data 0 0 0)
    end.
Proof.
  intros Hv. pose proof (b2a_ok v Hv) as Hc. cbv beta zeta delta [check_b2a] in Hc.
  cbn [a2b_loop].
  apply andb_true_iff in Hc as [Hc Hv'].
  apply andb_true_iff in Hc as [_ Hp]. apply negb_true_iff in Hp.
  rewrite Hp.
  destruct (table_a2b_base64 (byte_val (b2a v))) as [v'|]; [|discriminate].
  apply Z.eqb_eq in Hv'. subst v'. reflexivity.
Qed.

(** What the loop does on a pad. *)
Lemma a2b_loop_pad (data : bytes) (q : nat) (l : Z) (p : nat) :
  a2b_loop (byte_of BASE64_PAD :: data) q l p =
    if (2 <=? q)%nat then
      if (4 <=? q + S p)%nat then Ok []
      else a2b_loop data q l (S p)
    else a2b_loop data q l p.
Proof. reflexivity. Qed.

Lemma bytes_ind3 (P : bytes -> Prop) :
  P [] ->
  (forall b0, P [b0]) ->
  (forall b0 b1, P [b0; b1]) ->
  (forall b0 b1 b2 rest, P rest -> P (b0 :: b1 :: b2 :: rest)) ->
  forall data, P data.
Proof.
  intros H0 H1 H2 H3 data.
  remember (length data) as n eqn:Hn. revert data Hn.
  induction n as [n IH] using lt_wf_ind. intros data Hn.
  destruct data as [|b0 [|b1 [|b2 rest]]]; auto.
  apply H3. apply (IH (length rest)); [subst n; simpl; lia | reflexivity].
Qed.

(** The facts about the four characters of a full group. *)
Lemma group_facts (b0 b1 b2 : byte) :
  let v0 := byte_val b0 in
  let v1 := byte_val b1 in
  let v2 := byte_val b2 in
  let c0 := Z.shiftr v0 2 in
  let c1 := Z.lor (Z.shiftl (Z.land v0 3) 4) (Z.shiftr v1 4) in
  let c2 := Z.lor (Z.shiftl (Z.land v1 0xf) 2) (Z.shiftr v2 6) in
  let c3 := Z.land v2 0x3f in
  (0 <= c0 < 64 /\ 0 <= c1 < 64 /\ 0 <= c2 < 64 /\ 0 <= c3 < 64) /\
  Z.lor (Z.shiftl c0 2) (Z.shiftr c1 4) = v0 /\
  Z.lor (Z.shiftl (Z.land c1 0x0f) 4) (Z.shiftr c2 2) = v1 /\
  Z.lor (Z.shiftl (Z.land c2 0x03) 6) c3 = v2.
Proof.
  intros v0 v1 v2 c0 c1 c2 c3.
  pose proof (byte_val_range b0) as R0. pose proof (byte_val_range b1) as R1.
  pose proof (byte_val_range b2) as R2.
  pose proof (hi_ok _ _ R0 R1) as T. cbv beta zeta delta [check_hi] in T.
  apply andb_true_iff in T as [T T4]. apply andb_true_iff in T as [T T3].
  apply andb_true_iff in T as [T1 T2].
  apply in6_range in T1, T2. apply Z.eqb_eq in T3, T4.
  pose proof (lo_ok _ _ R1 R2) as U. cbv beta zeta delta [check_lo] in U.
  apply andb_true_iff in U as [U U4]. apply andb_true_iff in U as [U U3].
  apply andb_true_iff in U as [U1 U2].
  apply in6_range in U1, U2. apply Z.eqb_eq in U3, U4.
  subst c0 c1 c2 c3 v0 v1 v2. rewrite T4. auto.
Qed.

(** The facts about a last group of one byte. *)
Lemma tail1_facts (b0 : byte) :
  let v0 := byte_val b0 in
  let c0 := Z.shiftr v0 2 in
  let c1 := Z.shiftl (Z.land v0 3) 4 in
  (0 <= c0 < 64 /\ 0 <= c1 < 64) /\
  Z.lor (Z.shiftl c0 2) (Z.shiftr c1 4) = v0.
Proof.
  intros v0 c0 c1. pose proof (byte_val_range b0) as R0.
  pose proof (tail1_ok _ R0) as T. cbv beta zeta delta [check_tail1] in T.
  apply andb_true_iff in T as [T T3]. apply andb_true_iff in T as [T1 T2].
  apply in6_range in T1, T2. apply Z.eqb_eq in T3. auto.
Qed.

(** The facts about a last group of two bytes. *)
Lemma tail2_facts (b0 b1 : byte) :
  let v0 := byte_val b0 in
  let v1 := byte_val b1 in
  let c0 := Z.shiftr v0 2 in
  let c1 := Z.lor (Z.shiftl (Z.land v0 3) 4) (Z.shiftr v1 4) in
  let c2 := Z.shiftl (Z.land v1 0xf) 2 in
  (0 <= c0 < 64 /\ 0 <= c1 < 64 /\ 0 <= c2 < 64) /\
  Z.lor (Z.shiftl c0 2) (Z.shiftr c1 4) = v0 /\
  Z.lor (Z.shiftl (Z.land c1 0x0f) 4) (Z.shiftr c2 2) = v1.
Proof.
  intros v0 v1 c0 c1 c2.
  pose proof (byte_val_range b0) as R0. pose proof (byte_val_range b1) as R1.
  pose proof (hi_ok _ _ R0 R1) as T. cbv beta zeta delta [check_hi] in T.
  apply andb_true_iff in T as [T T4]. apply andb_true_iff in T as [T T3].
  apply andb_true_iff in T as [T1 T2].
  apply in6_range in T1, T2. apply Z.eqb_eq in T3, T4.
  pose proof (tail2_ok _ _ R0 R1) as U. cbv beta zeta delta [check_tail2] in U.
  apply andb_true_iff in U as [U1 U2].
  apply in6_range in U1. apply Z.eqb_eq in U2. auto.
Qed.

Lemma a2b_b2a_loop (data : bytes) :
  a2b_loop (b2a_base64 data) 0 0 0 = Ok data.
Proof.
  induction data as [|b0|b0 b1|b0 b1 b2 rest IH] using bytes_ind3.
  - reflexivity.
  - destruct (tail1_facts b0) as ((? & ?) & E0).
    cbn [b2a_base64].
    rewrite !a2b_loop_b2a by assumption. rewrite !a2b_loop_pad.
    cbn [Nat.leb Nat.add rmap rbind]. rewrite E0, byte_of_val. reflexivity.
  - destruct (tail2_facts b0 b1) as ((? & ? & ?) & E0 & E1).
    cbn [b2a_base64].
    rewrite !a2b_loop_b2a by assumption. rewrite !a2b_loop_pad.
    cbn [Nat.leb Nat.add rmap rbind]. rewrite E0, E1, !byte_of_val. reflexivity.
  - destruct (group_facts b0 b1 b2) as ((? & ? & ? & ?) & E0 & E1 & E2).
    cbn [b2a_base64].
    rewrite !a2b_loop_b2a by assumption. rewrite IH.
    cbn [rmap rbind]. rewrite E0, E1, E2, !byte_of_val. reflexivity.
Qed.

Theorem a2b_b2a (data : bytes) : a2b_base64 (b64encode data) = Ok data.
Proof. apply a2b_b2a_loop. Qed.

Lemma b2a_ascii (v : Z) : 0 <= v < 64 -> byte_val (b2a v) < 128.
Proof.
  intros Hv. pose proof (b2a_ok v Hv) as Hc.
  cbv beta zeta delta [check_b2a] in Hc.
  apply andb_true_iff in Hc as [Hc _]. apply andb_true_iff in Hc as [Hc _].
  lia.
Qed.

Lemma b2a_alphabet (v : Z) : 0 <= v < 64 -> is_alphabet (byte_val (b2a v)) = true.
Proof.
  intros Hv. pose proof (b2a_ok v Hv) as Hc.
  cbv beta zeta delta [check_b2a] in Hc.
  apply andb_true_iff in Hc as [_ Hc]. unfold is_alphabet.
  destruct (table_a2b_base64 (byte_val (b2a v))); [reflexivity|discriminate].
Qed.

Lemma pad_val : byte_val (byte_of BASE64_PAD) = BASE64_PAD.
Proof. reflexivity. Qed.

(** The encoder writes ASCII only. *)
Lemma b64encode_ascii (data : bytes) :
  Forall (fun b => byte_val b < 128) (b64encode data).
Proof.
  unfold b64encode.
  induction data as [|b0|b0 b1|b0 b1 b2 rest IH] using bytes_ind3.
  - constructor.
  - destruct (tail1_facts b0) as ((? & ?) & _).
    cbn [b2a_base64]. repeat constructor; try (apply b2a_ascii; assumption);
      rewrite pad_val; reflexivity.
  - destruct (tail2_facts b0 b1) as ((? & ? & ?) & _).
    cbn [b2a_base64]. repeat constructor; try (apply b2a_ascii; assumption);
      rewrite pad_val; reflexivity.
  - destruct (group_facts b0 b1 b2) as ((? & ? & ? & ?) & _).
    cbn [b2a_base64]. repeat (constructor; [apply b2a_ascii; assumption|]).
    exact IH.
Qed.

Lemma is_base64_text_group (c0 c1 c2 c3 c4 : Z) (rest : str) :
  is_base64_text (c0 :: c1 :: c2 :: c3 :: c4 :: rest)
  = is_alphabet c0 && is_alphabet c1 && is_alphabet c2 && is_alphabet c3
    && is_base64_text (c4 :: rest).
Proof. reflexivity. Qed.

(** The encoder writes text in canonical form. *)
Lemma b64encode_text (data : bytes) :
  is_base64_text (List.map byte_val (b64encode data)) = true.
Proof.
  unfold b64encode.
  induction data as [|b0|b0 b1|b0 b1 b2 rest IH] using bytes_ind3.
  - reflexivity.
  - destruct (tail1_facts b0) as ((? & ?) & _).
    cbn [b2a_base64 List.map is_base64_text].
    rewrite !b2a_alphabet by assumption. rewrite pad_val. reflexivity.
  - destruct (tail2_facts b0 b1) as ((? & ? & ?) & _).
    cbn [b2a_base64 List.map is_base64_text].
    rewrite !b2a_alphabet by assumption. rewrite pad_val. reflexivity.
  - destruct (group_facts b0 b1 b2) as ((? & ? & ? & ?) & _).
    cbn [b2a_base64 List.map].
    destruct (List.map byte_val (b2a_base64 rest)) as [|c rest'] eqn:E.
    + cbn [is_base64_text]. rewrite !b2a_alphabet by assumption. reflexivity.
    + rewrite is_base64_text_group, IH, !b2a_alphabet by assumption.
      reflexivity.
Qed.

Lemma ascii_encode_vals (bs : bytes) :
  Forall (fun b => byte_val b < 128) bs ->
  ascii_encode (List.map byte_val bs) = Ok bs.
Proof.
  intros H. unfold ascii_encode.
  replace (forallb _ _) with true.
  - f_equal. induction bs as [|b bs IH]; [reflexivity|].
    cbn [List.map]. rewrite byte_of_val. f_equal. apply IH.
    inversion H; assumption.
  - symmetry. apply forallb_forall. intros c Hc.
    apply in_map_iff in Hc as (b & <- & Hb).
    rewrite Forall_forall in H. apply list_elem_of_In in Hb.
    specialize (H b Hb). pose proof (byte_val_range b). lia.
Qed.

(** The decoder skips every character that is neither in the alphabet nor
    the pad, in any state. *)
Lemma a2b_loop_filter (data : bytes) (q : nat) (l : Z) (p : nat) :
  a2b_loop (List.filter (fun b => is_data_char (byte_val b)) data) q l p
  = a2b_loop data q l p.
Proof.
  revert q l p. induction data as [|ch data IH]; intros q l p; [reflexivity|].
  cbn [List.filter]. unfold is_data_char, is_alphabet.
  destruct (byte_val ch =? BASE64_PAD) eqn:Ep.
  - cbn [orb a2b_loop]. rewrite Ep.
    destruct (2 <=? q)%nat; [destruct (4 <=? q + S p)%nat|]; auto.
  - destruct (table_a2b_base64 (byte_val ch)) as [v|] eqn:Et.
    + cbn [orb a2b_loop]. rewrite Ep, Et.
      destruct q as [|[|[|q]]]; rewrite IH; reflexivity.
    + cbn [orb a2b_loop]. rewrite Ep, Et. apply IH.
Qed.

End Base64Facts.

(** ** The monad: how a chain of calls runs *)

Section MonadFacts.
Context {N : NaCl}.

Lemma bind_ok_inv {A B} (m : M A) (k : A -> M B) (w w' : world) (b : B) :
  bind m k w = (Ok b, w') ->
  exists a w1, m w = (Ok a, w1) /\ k a w1 = (Ok b, w').
Proof.
  unfold bind. destruct (m w) as [[a|e] w1]; intros H.
  - exists a, w1. auto.
  - discriminate.
Qed.

Lemma bind_raise_inv {A B} (m : M A) (k : A -> M B) (w w' : world) (e : exn) :
  bind m k w = (Raise e, w') ->
  m w = (Raise e, w') \/
  exists a w1, m w = (Ok a, w1) /\ k a w1 = (Raise e, w').
Proof.
  unfold bind. destruct (m w) as [[a|e1] w1]; intros H.
  - right. exists a, w1. auto.
  - left. injection H as <- <-. reflexivity.
Qed.

Lemma bind_run {A B} (m : M A) (k : A -> M B) (w w1 : world) (a : A) :
  m w = (Ok a, w1) -> bind m k w = k a w1.
Proof. unfold bind. intros ->. reflexivity. Qed.

Lemma bind_fail {A B} (m : M A) (k : A -> M B) (w w1 : world) (e : exn) :
  m w = (Raise e, w1) -> bind m k w = (Raise e, w1).
Proof. unfold bind. intros ->. reflexivity. Qed.

Lemma lift_inv {A} (r r' : result A) (w w' : world) :
  lift r w = (r', w') -> r = r' /\ w' = w.
Proof. unfold lift. intros H. injection H as <- <-. auto. Qed.

Lemma try_except_ok {A} (body : M A) (h : exn -> M A) (w w' : world) (a : A) :
  body w = (Ok a, w') -> try_except body h w = (Ok a, w').
Proof. unfold try_except. intros ->. reflexivity. Qed.

Lemma try_except_raise {A} (body : M A) (h : exn -> M A) (w w' : world) (e : exn) :
  body w = (Raise e, w') -> try_except body h w = h e w'.
Proof. unfold try_except. intros ->. reflexivity. Qed.

(** The closing handlers give one of the three kinds, and leave
    [InvalidKeyError] and [InvalidMessageError] as they are. *)
Lemma reraise_or_wrap_eq {A} (e : exn) (w : world) :
  @Enc.reraise_or_wrap N A e w = (Raise (Enc.surfaced e), w).
Proof. destruct e; reflexivity. Qed.

Lemma surfaced_public (e : exn) : is_public_kind (Enc.surfaced e) = true.
Proof. destruct e; reflexivity. Qed.

Lemma guarded_ok_inv {A} (body : M A) (w w' : world) (a : A) :
  try_except body Enc.reraise_or_wrap w = (Ok a, w') -> body w = (Ok a, w').
Proof.
  unfold try_except. destruct (body w) as [[a1|e] w1]; [auto|].
  rewrite reraise_or_wrap_eq. discriminate.
Qed.

Lemma guarded_raise_inv {A} (body : M A) (w w' : world) (e : exn) :
  try_except body Enc.reraise_or_wrap w = (Raise e, w') ->
  exists e0, body w = (Raise e0, w') /\ e = Enc.surfaced e0.
Proof.
  unfold try_except. destruct (body w) as [[a1|e0] w1]; [discriminate|].
  rewrite reraise_or_wrap_eq. intros H. injection H as <- <-.
  exists e0. auto.
Qed.

End MonadFacts.

(** ** The objects of PyNaCl: what a successful call tells *)

Section ObjectFacts.
Context {N : NaCl}.

Lemma raise_if_ok_inv (c : bool) (e : exn) (u : unit) :
  raise_if c e = Ok u -> c = false.
Proof. destruct c; [discriminate|reflexivity]. Qed.

Lemma PublicKey_init_inv (raw : bytes) (pk : PublicKey) :
  PublicKey_init raw = Ok pk -> pk_raw pk = raw /\ len raw = 32.
Proof.
  unfold PublicKey_init, PublicKey_SIZE.
  destruct (Z.eqb_spec (len raw) 32); [|discriminate].
  cbn. intros H. injection H as <-. auto.
Qed.

Lemma PublicKey_init_ok (raw : bytes) :
  len raw = 32 -> PublicKey_init raw = Ok {| pk_raw := raw |}.
Proof.
  intros H. unfold PublicKey_init, PublicKey_SIZE. rewrite H. reflexivity.
Qed.

Lemma PublicKey_init_bad (raw : bytes) :
  len raw <> 32 -> PublicKey_init raw = Raise ValueError.
Proof.
  intros H. unfold PublicKey_init, PublicKey_SIZE.
  destruct (Z.eqb_spec (len raw) 32); [contradiction|reflexivity].
Qed.

Lemma PrivateKey_init_inv (raw : bytes) (sk : PrivateKey) :
  PrivateKey_init raw = Ok sk ->
  sk_raw sk = raw /\ len raw = 32 /\
  pk_raw (public_key sk) = crypto_scalarmult_base raw /\
  len (crypto_scalarmult_base raw) = 32.
Proof.
  unfold PrivateKey_init, PrivateKey_SIZE.
  destruct (Z.eqb_spec (len raw) 32); [|discriminate]. cbn.
  destruct (PublicKey_init (crypto_scalarmult_base raw)) as [pk|] eqn:E;
    [|discriminate].
  apply PublicKey_init_inv in E as [E1 E2].
  cbn. intros H. injection H as <-. auto.
Qed.

Lemma PrivateKey_init_ok (raw : bytes) :
  len raw = 32 -> len (crypto_scalarmult_base raw) = 32 ->
  PrivateKey_init raw =
    Ok {| sk_raw := raw;
          public_key := {| pk_raw := crypto_scalarmult_base raw |} |}.
Proof.
  intros H1 H2. unfold PrivateKey_init, PrivateKey_SIZE.
  rewrite H1, (PublicKey_init_ok _ H2). reflexivity.
Qed.

Lemma PrivateKey_init_bad (raw : bytes) :
  len raw <> 32 -> PrivateKey_init raw = Raise TypeError.
Proof.
  intros H. unfold PrivateKey_init, PrivateKey_SIZE.
  destruct (Z.eqb_spec (len raw) 32); [contradiction|reflexivity].
Qed.

Lemma new_PublicKey_eq (raw : bytes) (w : world) :
  new_PublicKey raw w = (PublicKey_init raw, log_call Call_PublicKey w).
Proof. reflexivity. Qed.

Lemma new_PrivateKey_eq (raw : bytes) (w : world) :
  new_PrivateKey raw w = (PrivateKey_init raw, log_call Call_PrivateKey w).
Proof. reflexivity. Qed.

Lemma new_Box_eq (sk : PrivateKey) (pk : PublicKey) (w : world) :
  new_Box sk pk w = (Box_init sk pk, log_call Call_Box w).
Proof. reflexivity. Qed.

Lemma Box_encrypt_eq (box : Box) (plaintext nonce : bytes) (w : world) :
  Box_encrypt box plaintext nonce w =
    (Box_encrypt_pure box plaintext nonce, log_call Call_Box_encrypt w).
Proof. reflexivity. Qed.

Lemma Box_decrypt_eq (box : Box) (ciphertext nonce : bytes) (w : world) :
  Box_decrypt box ciphertext nonce w =
    (Box_decrypt_pure box ciphertext nonce, log_call Call_Box_decrypt w).
Proof. reflexivity. Qed.

Lemma PrivateKey_generate_eq (w : world) :
  PrivateKey_generate w =
    (PrivateKey_init (fst (os_random 32 (entropy w))),
     log_call Call_PrivateKey
       (World (snd (os_random 32 (entropy w)))
              (nacl_calls w ++ [Call_random 32%nat]))).
Proof. reflexivity. Qed.

Lemma Box_init_inv (sk : PrivateKey) (pk : PublicKey) (box : Box) :
  Box_init sk pk = Ok box ->
  crypto_box_beforenm (pk_raw pk) (sk_raw sk) = Some (shared_key box).
Proof.
  unfold Box_init.
  destruct (crypto_box_beforenm (pk_raw pk) (sk_raw sk)); [|discriminate].
  intros H. injection H as <-. reflexivity.
Qed.

Lemma Box_encrypt_pure_inv (box : Box) (plaintext nonce out : bytes) :
  Box_encrypt_pure box plaintext nonce = Ok out ->
  len nonce = 24 /\
  out = nonce ++ crypto_box_afternm plaintext nonce (shared_key box).
Proof.
  unfold Box_encrypt_pure, Box_NONCE_SIZE.
  destruct (Z.eqb_spec (len nonce) 24); [|discriminate].
  cbn. intros H. injection H as <-. auto.
Qed.

Lemma Box_decrypt_pure_bad_nonce (box : Box) (ciphertext nonce : bytes) :
  len nonce <> 24 -> Box_decrypt_pure box ciphertext nonce = Raise ValueError.
Proof.
  intros H. unfold Box_decrypt_pure, Box_NONCE_SIZE.
  destruct (Z.eqb_spec (len nonce) 24); [contradiction|reflexivity].
Qed.

(** Dropping the nonce from the front of what [Box.encrypt] returns. *)
Lemma drop_nonce (nonce rest : bytes) :
  len nonce = 24 -> drop 24 (nonce ++ rest) = rest.
Proof.
  intros H. replace 24%nat with (length nonce) by (unfold len in H; lia).
  apply drop_app_length.
Qed.

End ObjectFacts.

(** ** Base64 text, as the class uses it *)

Section TextFacts.
Import Enc Base64.

Lemma b64encode_str_eq (data : bytes) : b64encode_str data = Ok (b64text data).
Proof.
  unfold b64encode_str, b64text. apply utf8_decode_ascii, b64encode_ascii.
Qed.

Lemma encode_base64_eq (data : bytes) : _encode_base64 data = Ok (b64text data).
Proof. unfold _encode_base64. rewrite b64encode_str_eq. reflexivity. Qed.

(** [b64decode] undoes [b64encode]. *)
Lemma b64decode_b64text (data : bytes) : b64decode (b64text data) = Ok data.
Proof.
  unfold b64decode, b64text.
  rewrite ascii_encode_vals by apply b64encode_ascii. apply a2b_b2a.
Qed.

Lemma decode_base64_b64text (data : bytes) : _decode_base64 (b64text data) = Ok data.
Proof. unfold _decode_base64. rewrite b64decode_b64text. reflexivity. Qed.

Lemma b64text_nonempty (data : bytes) : data <> [] -> b64text data <> [].
Proof.
  unfold b64text, b64encode.
  destruct data as [|b0 [|b1 [|b2 rest]]]; [contradiction| | |]; discriminate.
Qed.

(** The canonical text never holds a character the decoder would skip. *)
Lemma b64text_canonical (data : bytes) : is_base64_text (b64text data) = true.
Proof. apply b64encode_text. Qed.

Lemma vars_version (e : EncryptedMessage) :
  vars e !! lit "version" = Some (version e).
Proof. unfold vars. by simplify_map_eq. Qed.

Lemma vars_nonce (e : EncryptedMessage) :
  vars e !! lit "nonce" = Some (nonce e).
Proof. unfold vars. by simplify_map_eq. Qed.

Lemma vars_ephemPublicKey (e : EncryptedMessage) :
  vars e !! lit "ephemPublicKey" = Some (ephemPublicKey e).
Proof. unfold vars. by simplify_map_eq. Qed.

Lemma vars_ciphertext (e : EncryptedMessage) :
  vars e !! lit "ciphertext" = Some (ciphertext e).
Proof. unfold vars. by simplify_map_eq. Qed.

Lemma vars_dom (e : EncryptedMessage) : dom (vars e) = required_fields.
Proof.
  unfold vars, required_fields. rewrite !dom_insert_L, dom_empty_L. set_solver.
Qed.

End TextFacts.

(** ** The two main operations, step by step *)

Section StepByStep.
Context {N : NaCl}.
Import Enc Base64.

(** [encrypt_message], step by step. *)
Lemma encrypt_message_eq (receiver_public_key msg : str) (w : world) :
  encrypt_message receiver_public_key msg w =
    match _validate_message msg with
    | Raise e => (Raise (surfaced e), w)
    | Ok _ =>
    match _validate_public_key receiver_public_key with
    | Raise e => (Raise (surfaced e), w)
    | Ok _ =>
    let drawn := os_random 32 (entropy w) in
    let w1 := log_call Call_PrivateKey
                (World (snd drawn) (nacl_calls w ++ [Call_random 32%nat])) in
    match PrivateKey_init (fst drawn) with
    | Raise e => (Raise (surfaced e), w1)
    | Ok ephemeral_keypair =>
    match b64decode receiver_public_key with
    | Raise e => (Raise (surfaced e), w1)
    | Ok pub_key_bytes =>
    let w2 := log_call Call_PublicKey w1 in
    match PublicKey_init pub_key_bytes with
    | Raise e => (Raise (surfaced e), w2)
    | Ok receiver_key =>
    match Utf8.encode msg with
    | Raise e => (Raise (surfaced e), w2)
    | Ok msg_bytes =>
    let drawn' := os_random 24 (snd drawn) in
    let w3 := log_call Call_Box
                (World (snd drawn') (nacl_calls w2 ++ [Call_random 24%nat])) in
    match Box_init ephemeral_keypair receiver_key with
    | Raise e => (Raise (surfaced e), w3)
    | Ok box =>
    let w4 := log_call Call_Box_encrypt w3 in
    match Box_encrypt_pure box msg_bytes (fst drawn') with
    | Raise e => (Raise (surfaced e), w4)
    | Ok encrypted =>
        (Ok (vars {| version := VERSION;
                     nonce := b64text (fst drawn');
                     ephemPublicKey :=
                       b64text (pk_raw (public_key ephemeral_keypair));
                     ciphertext := b64text (drop 24 encrypted) |}), w4)
    end end end end end end end end.
Proof.
  cbv beta iota zeta delta [encrypt_message encrypt_message_body try_except bind
    lift ret raise record_call new_PublicKey new_PrivateKey PrivateKey_generate
    utils_random new_Box Box_encrypt].
  destruct (_validate_message msg); [|apply reraise_or_wrap_eq].
  destruct (_validate_public_key receiver_public_key); [|apply reraise_or_wrap_eq].
  destruct (PrivateKey_init _) as [sk|]; [|apply reraise_or_wrap_eq].
  destruct (b64decode receiver_public_key) as [pkb|]; [|apply reraise_or_wrap_eq].
  destruct (PublicKey_init pkb) as [rk|]; [|apply reraise_or_wrap_eq].
  destruct (Utf8.encode msg) as [mb|]; [|apply reraise_or_wrap_eq].
  destruct (Box_init sk rk) as [box|]; [|apply reraise_or_wrap_eq].
  cbn [entropy log_call].
  destruct (Box_encrypt_pure box mb _) as [encrypted|]; [|apply reraise_or_wrap_eq].
  rewrite !encode_base64_eq. reflexivity.
Qed.

(** [decrypt_message], step by step: which test or call decides the
    outcome, and what the world is then. *)
Lemma decrypt_message_eq (private_key : str) (encrypted_data : dict) (w : world) :
  decrypt_message private_key encrypted_data w =
    if negb (bool_decide (required_fields ⊆ dom encrypted_data))
    then (Raise InvalidMessageError, w)
    else
    match getitem encrypted_data (lit "version") with
    | Raise e => (Raise (surfaced e), w)
    | Ok version =>
    if negb (bool_decide (version = VERSION))
    then (Raise InvalidMessageError, w)
    else
    match _decode_base64 private_key with
    | Raise _ => (Raise InvalidKeyError, w)
    | Ok priv_key_bytes =>
    let w1 := log_call Call_PrivateKey w in
    match PrivateKey_init priv_key_bytes with
    | Raise _ => (Raise InvalidKeyError, w1)
    | Ok receiver_private_key =>
    match (t <- getitem encrypted_data (lit "nonce") ;; _decode_base64 t)%result with
    | Raise _ => (Raise InvalidMessageError, w1)
    | Ok nonce =>
    match (t <- getitem encrypted_data (lit "ephemPublicKey") ;; _decode_base64 t)%result with
    | Raise _ => (Raise InvalidMessageError, w1)
    | Ok ephem_bytes =>
    let w2 := log_call Call_PublicKey w1 in
    match PublicKey_init ephem_bytes with
    | Raise _ => (Raise InvalidMessageError, w2)
    | Ok ephem_public_key =>
    match (t <- getitem encrypted_data (lit "ciphertext") ;; _decode_base64 t)%result with
    | Raise _ => (Raise InvalidMessageError, w2)
    | Ok ciphertext =>
    let w3 := log_call Call_Box w2 in
    match Box_init receiver_private_key ephem_public_key with
    | Raise e => (Raise (surfaced e), w3)
    | Ok box =>
    let w4 := log_call Call_Box_decrypt w3 in
    match Box_decrypt_pure box ciphertext nonce with
    | Raise e => (Raise (surfaced e), w4)
    | Ok decrypted_message =>
    match Utf8.decode decrypted_message with
    | Raise e => (Raise (surfaced e), w4)
    | Ok text => (Ok text, w4)
    end end end end end end end end end end.
Proof.
  cbv beta iota zeta delta [decrypt_message decrypt_message_body try_except bind
    lift ret raise record_call new_PublicKey new_PrivateKey new_Box Box_decrypt
    rbind].
  destruct (negb (bool_decide (required_fields ⊆ dom encrypted_data)));
    [reflexivity|].
  cbv beta iota delta [raise_if].
  destruct (getitem encrypted_data (lit "version")) as [version|e];
    [|apply reraise_or_wrap_eq].
  destruct (negb (bool_decide (version = VERSION))); [reflexivity|].
  cbv beta iota.
  destruct (_decode_base64 private_key) as [priv_key_bytes|]; [|reflexivity].
  destruct (PrivateKey_init priv_key_bytes) as [sk|]; [|reflexivity].
  destruct (getitem encrypted_data (lit "nonce")) as [t1|]; [|reflexivity].
  destruct (_decode_base64 t1) as [nonce|]; [|reflexivity].
  destruct (getitem encrypted_data (lit "ephemPublicKey")) as [t2|]; [|reflexivity].
  destruct (_decode_base64 t2) as [eb|]; [|reflexivity].
  destruct (PublicKey_init eb) as [epk|]; [|reflexivity].
  destruct (getitem encrypted_data (lit "ciphertext")) as [t3|]; [|reflexivity].
  destruct (_decode_base64 t3) as [ct|]; [|reflexivity].
  destruct (Box_init sk epk) as [box|]; [|apply reraise_or_wrap_eq].
  destruct (Box_decrypt_pure box ct nonce) as [dm|]; [|apply reraise_or_wrap_eq].
  destruct (Utf8.decode dm) as [text|e] eqn:E; [reflexivity|].
  destruct e; reflexivity.
Qed.

End StepByStep.

(** ** Which exceptions the library calls raise *)

Section RaiseSets.
Context {N : NaCl}.
Import Enc Base64.

Lemma utf8_encode_raises (s : str) (e : exn) :
  Utf8.encode s = Raise e -> e = UnicodeEncodeError.
Proof.
  induction s as [|c s IH]; simpl; [discriminate|].
  destruct (Utf8.encode_cp c); [|congruence].
  destruct (Utf8.encode s); simpl; [discriminate|].
  intros H. injection H as <-. apply IH. reflexivity.
Qed.

Lemma a2b_loop_raises (data : bytes) (q : nat) (l : Z) (p : nat) (e : exn) :
  a2b_loop data q l p = Raise e -> e = BinasciiError.
Proof.
  revert q l p. induction data as [|ch data IH]; intros q l p; cbn [a2b_loop].
  - destruct q; congruence.
  - destruct (byte_val ch =? BASE64_PAD).
    + destruct (2 <=? q)%nat; [destruct (4 <=? q + S p)%nat|]; eauto; discriminate.
    + destruct (table_a2b_base64 (byte_val ch)); [|eauto].
      destruct q as [|[|[|q]]]; [eauto| | |];
        match goal with
        | |- rmap _ ?r = _ -> _ =>
            destruct r eqn:E; cbn; [discriminate|];
            intros H; injection H as <-; eauto
        end.
Qed.

Lemma b64decode_raises (s : str) (e : exn) :
  b64decode s = Raise e -> e = ValueError \/ e = BinasciiError.
Proof.
  unfold b64decode. destruct (ascii_encode s).
  - intros H. right. eapply a2b_loop_raises. exact H.
  - intros H. left. congruence.
Qed.

Lemma PublicKey_init_raises (raw : bytes) (e : exn) :
  PublicKey_init raw = Raise e -> e = ValueError.
Proof.
  unfold PublicKey_init. destruct (negb _); cbn; congruence.
Qed.

Lemma PrivateKey_init_raises (raw : bytes) (e : exn) :
  PrivateKey_init raw = Raise e -> e = TypeError \/ e = ValueError.
Proof.
  unfold PrivateKey_init. destruct (negb _); cbn; [left; congruence|].
  destruct (PublicKey_init _) eqn:E; cbn; [discriminate|].
  intros H. injection H as <-. right. eapply PublicKey_init_raises, E.
Qed.

Lemma Box_init_raises (sk : PrivateKey) (pk : PublicKey) (e : exn) :
  Box_init sk pk = Raise e -> e = CryptoError.
Proof. unfold Box_init. destruct (crypto_box_beforenm _ _); congruence. Qed.

Lemma Box_encrypt_pure_raises (box : Box) (plaintext nonce : bytes) (e : exn) :
  Box_encrypt_pure box plaintext nonce = Raise e -> e = ValueError.
Proof. unfold Box_encrypt_pure. destruct (negb _); cbn; congruence. Qed.

Lemma Box_decrypt_pure_raises (box : Box) (ciphertext nonce : bytes) (e : exn) :
  Box_decrypt_pure box ciphertext nonce = Raise e ->
  e = ValueError \/ e = CryptoError.
Proof.
  unfold Box_decrypt_pure. destruct (negb _); cbn; [left; congruence|].
  destruct (crypto_box_open_afternm _ _ _); [discriminate|].
  right. congruence.
Qed.

Lemma validate_public_key_raises (key : str) (e : exn) :
  _validate_public_key key = Raise e -> e = InvalidKeyError.
Proof.
  unfold _validate_public_key. destruct (empty_str key); cbn; [congruence|].
  destruct (rbind _ _); cbn; congruence.
Qed.

Lemma validate_message_raises (msg : str) (e : exn) :
  _validate_message msg = Raise e ->
  e = InvalidMessageError \/ e = UnicodeEncodeError.
Proof.
  unfold _validate_message. destruct (Utf8.encode msg) eqn:E; cbn.
  - destruct (_ >? _); cbn; [left; congruence|].
    destruct (empty_str msg); cbn; [left; congruence|discriminate].
  - intros H. injection H as <-. right. eapply utf8_encode_raises, E.
Qed.

End RaiseSets.

(** ** Message validation *)

Section Validation.
Import Enc Base64.

Lemma validate_message_accepts (msg : str) :
  _validate_message msg = Ok tt <->
  exists encoded, Utf8.encode msg = Ok encoded /\ 0 < len encoded <= 1048576.
Proof.
  unfold _validate_message, MAX_MESSAGE_LENGTH. split.
  - destruct (Utf8.encode msg) as [encoded|] eqn:E; cbn; [|discriminate].
    destruct (Z.gtb_spec (len encoded) (1024 * 1024)); cbn; [discriminate|].
    destruct msg as [|c msg]; cbn; [discriminate|]. intros _.
    exists encoded. split; [reflexivity|]. split; [|lia].
    destruct encoded as [|b encoded]; [|unfold len; simpl; lia].
    apply utf8_encode_nil in E. discriminate.
  - intros (encoded & E & Hlen). rewrite E. cbn.
    destruct (Z.gtb_spec (len encoded) (1024 * 1024)); [lia|]. cbn.
    destruct msg as [|c msg]; [|reflexivity].
    simpl in E. injection E as <-. unfold len in Hlen. simpl in Hlen. lia.
Qed.

Lemma validate_message_rejects (msg : str) :
  _validate_message msg = Raise InvalidMessageError <->
  msg = [] \/
  exists encoded, Utf8.encode msg = Ok encoded /\ 1048577 <= len encoded.
Proof.
  unfold _validate_message, MAX_MESSAGE_LENGTH. split.
  - destruct (Utf8.encode msg) as [encoded|] eqn:E; cbn.
    + destruct (Z.gtb_spec (len encoded) (1024 * 1024)); cbn.
      * intros _. right. exists encoded. split; [reflexivity|lia].
      * destruct msg; cbn; [auto|discriminate].
    + intros H. injection H as ->. apply utf8_encode_raises in E. discriminate.
  - intros [->|(encoded & -> & Hlen)]; [reflexivity|]. cbn.
    destruct (Z.gtb_spec (len encoded) (1024 * 1024)); [reflexivity|lia].
Qed.

Lemma validate_public_key_inv (key : str) :
  _validate_public_key key = Ok tt ->
  key <> [] /\ exists decoded, b64decode key = Ok decoded /\ len decoded = 32.
Proof.
  unfold _validate_public_key, PublicKey_SIZE.
  destruct key as [|c key]; [discriminate|]. cbn [empty_str raise_if rbind].
  destruct (b64decode (c :: key)) as [decoded|]; [|discriminate].
  cbn [rbind]. destruct (Z.eqb_spec (len decoded) 32); [|discriminate].
  intros _. split; [discriminate|]. exists decoded. auto.
Qed.

Lemma validate_public_key_ok (key : str) (decoded : bytes) :
  key <> [] -> b64decode key = Ok decoded -> len decoded = 32 ->
  _validate_public_key key = Ok tt.
Proof.
  intros Hk Hd Hl. unfold _validate_public_key, PublicKey_SIZE.
  destruct key as [|c key]; [contradiction|]. cbn [empty_str raise_if rbind].
  rewrite Hd. cbn [rbind]. rewrite Hl. reflexivity.
Qed.

End Validation.

(** ** The other public operations, step by step *)

Section OtherOperations.
Context {N : NaCl}.
Import Enc Base64.

Lemma generate_key_pair_eq (w : world) :
  generate_key_pair w =
    let drawn := os_random 32 (entropy w) in
    let w1 := log_call Call_PrivateKey
                (World (snd drawn) (nacl_calls w ++ [Call_random 32%nat])) in
    match PrivateKey_init (fst drawn) with
    | Raise _ => (Raise EncryptionError, w1)
    | Ok private_key =>
        (Ok (<[lit "privateKey" := b64text (sk_raw private_key)]>
               (<[lit "publicKey" := b64text (pk_raw (public_key private_key))]>
                  ∅)), w1)
    end.
Proof.
  cbv beta iota zeta delta [generate_key_pair try_except bind lift ret raise
    record_call new_PrivateKey PrivateKey_generate utils_random].
  destruct (PrivateKey_init _) as [sk|]; [|reflexivity].
  rewrite !b64encode_str_eq. reflexivity.
Qed.

Lemma get_public_key_eq (private_key : str) (w : world) :
  get_public_key private_key w =
    match b64decode private_key with
    | Raise _ => (Raise InvalidKeyError, w)
    | Ok priv_key_bytes =>
        match PrivateKey_init priv_key_bytes with
        | Raise _ => (Raise InvalidKeyError, log_call Call_PrivateKey w)
        | Ok private_key_obj =>
            (Ok (b64text (pk_raw (public_key private_key_obj))),
             log_call Call_PrivateKey w)
        end
    end.
Proof.
  cbv beta iota zeta delta [get_public_key try_except bind lift ret raise
    record_call new_PrivateKey].
  destruct (b64decode private_key) as [skb|]; [|reflexivity].
  destruct (PrivateKey_init skb) as [sk|]; [|reflexivity].
  rewrite b64encode_str_eq. reflexivity.
Qed.

Lemma is_valid_key_eq (key key_type : str) (w : world) :
  is_valid_key key key_type w =
    match b64decode key with
    | Raise _ => (Ok false, w)
    | Ok decoded_key =>
        if bool_decide (key_type = lit "public")
        then (Ok (len decoded_key =? 32), w)
        else
          match PrivateKey_init decoded_key with
          | Raise _ => (Ok false, log_call Call_PrivateKey w)
          | Ok _ => (Ok true, log_call Call_PrivateKey w)
          end
    end.
Proof.
  cbv beta iota zeta delta [is_valid_key try_except bind lift ret raise
    record_call new_PrivateKey].
  destruct (b64decode key) as [decoded|]; [|reflexivity].
  destruct (bool_decide (key_type = lit "public")); [reflexivity|].
  destruct (PrivateKey_init decoded); reflexivity.
Qed.

Lemma format_key_raises (key : key_arg) (input_encoding : str) (e : exn) :
  format_key key input_encoding = Raise e -> e = InvalidKeyError.
Proof.
  unfold format_key, except_Exception.
  match goal with |- match ?r with _ => _ end = _ -> _ => destruct r end;
    congruence.
Qed.

Lemma check_fields_raises (fields : list str) (d : dict) (e : exn) :
  (forall f, In f fields -> is_Some (d !! f)) ->
  check_fields fields d = Raise e -> e = InvalidMessageError.
Proof.
  induction fields as [|f fields IH]; intros Hin; cbn [check_fields];
    [discriminate|].
  destruct (Hin f (or_introl eq_refl)) as [v Hv].
  unfold getitem. rewrite Hv. cbn [rbind].
  destruct (empty_str v); cbn; [congruence|].
  apply IH. intros g Hg. apply Hin. right. exact Hg.
Qed.

Lemma validate_format_raises (d : dict) (e : exn) :
  validate_encrypted_message_format d = Raise e -> e = InvalidMessageError.
Proof.
  unfold validate_encrypted_message_format. cbv zeta.
  destruct (bool_decide (required_fields ∖ dom d = ∅)) eqn:E; cbn;
    [|congruence].
  apply bool_decide_eq_true in E.
  apply check_fields_raises. intros f Hf.
  apply list_elem_of_In, elem_of_elements in Hf.
  apply elem_of_dom.
  destruct (decide (f ∈ dom d)) as [Hd|Hd]; [exact Hd|].
  assert (f ∈ required_fields ∖ dom d) as Hx
    by (apply elem_of_difference; auto).
  rewrite E in Hx. apply not_elem_of_empty in Hx. contradiction.
Qed.

(** The test on the required fields of [decrypt_message]. *)
Lemma required_fields_present (d : dict) :
  required_fields ⊆ dom d <->
  is_Some (d !! lit "version") /\ is_Some (d !! lit "nonce") /\
  is_Some (d !! lit "ephemPublicKey") /\ is_Some (d !! lit "ciphertext").
Proof.
  unfold required_fields. rewrite <- !elem_of_dom, elem_of_subseteq.
  split.
  - intros H. repeat split; apply H;
      rewrite !elem_of_union, !elem_of_singleton; auto.
  - intros (H1 & H2 & H3 & H4) x.
    rewrite !elem_of_union, !elem_of_singleton.
    intros [[[->| ->]| ->]| ->]; assumption.
Qed.

(** A version that is there and is not the supported one stops
    [decrypt_message] at its second test. *)
Lemma decrypt_message_version_mismatch (private_key : str) (d : dict)
    (v : str) (w : world) :
  d !! lit "version" = Some v -> v <> VERSION ->
  decrypt_message private_key d w = (Raise InvalidMessageError, w).
Proof.
  intros Hv Hne. rewrite decrypt_message_eq.
  destruct (negb (bool_decide (required_fields ⊆ dom d))); [reflexivity|].
  unfold getitem. rewrite Hv.
  rewrite (bool_decide_eq_false_2 (v = VERSION)) by exact Hne.
  reflexivity.
Qed.

End OtherOperations.

(** ** The small implementation meets the laws of the primitives *)

Section ToyFacts.

Lemma toy_random_length (size : nat) (g : @rng Toy.nacl) :
  length (fst (@os_random Toy.nacl size g)) = size.
Proof. apply repeat_length. Qed.

Lemma toy_scalarmult_base_length (sk : bytes) :
  len sk = 32 -> len (@crypto_scalarmult_base Toy.nacl sk) = 32.
Proof. intros H. exact H. Qed.

Lemma toy_afternm_length (message nonce k : bytes) :
  len (@crypto_box_afternm Toy.nacl message nonce k) = len message + 16.
Proof.
  change (len (Toy.tag ++ message) = len message + 16).
  rewrite len_app. change (len Toy.tag) with 16. lia.
Qed.

Lemma toy_beforenm_agreement (a b : bytes) :
  len a = 32 -> len b = 32 ->
  exists k,
    @crypto_box_beforenm Toy.nacl (@crypto_scalarmult_base Toy.nacl a) b = Some k /\
    @crypto_box_beforenm Toy.nacl (@crypto_scalarmult_base Toy.nacl b) a = Some k.
Proof. intros _ _. eexists. split; reflexivity. Qed.

Lemma toy_open_afternm (message nonce k : bytes) :
  len nonce = 24 ->
  @crypto_box_open_afternm Toy.nacl
    (@crypto_box_afternm Toy.nacl message nonce k) nonce k = Some message.
Proof.
  intros _.
  change (Toy.open (Toy.tag ++ message) nonce k = Some message).
  unfold Toy.open. rewrite len_app.
  replace (16 <=? len Toy.tag + len message) with true
    by (symmetry; apply Z.leb_le; pose proof (len_nonneg message);
        change (len Toy.tag) with 16; lia).
  reflexivity.
Qed.

End ToyFacts.

(** * The claims *)

(** ** What a returned envelope tells *)

Section EnvelopeFacts.
Context {N : NaCl}.
Import Enc Base64.

Lemma encrypt_message_inv (pk msg : str) (w w' : world) (env : dict) :
  encrypt_message pk msg w = (Ok env, w') ->
  exists mb pkb k,
    _validate_message msg = Ok tt /\ _validate_public_key pk = Ok tt /\
    Utf8.encode msg = Ok mb /\ b64decode pk = Ok pkb /\ len pkb = 32 /\
    let seed := fst (os_random 32 (entropy w)) in
    let nonce := fst (os_random 24 (snd (os_random 32 (entropy w)))) in
    len seed = 32 /\ len (crypto_scalarmult_base seed) = 32 /\ len nonce = 24 /\
    crypto_box_beforenm pkb seed = Some k /\
    env = vars {| version := VERSION;
                  nonce := b64text nonce;
                  ephemPublicKey := b64text (crypto_scalarmult_base seed);
                  ciphertext := b64text (crypto_box_afternm mb nonce k) |}.
Proof.
  rewrite encrypt_message_eq. cbv zeta.
  destruct (_validate_message msg) as [[]|] eqn:Hm; [|discriminate].
  destruct (_validate_public_key pk) as [[]|] eqn:Hk; [|discriminate].
  destruct (PrivateKey_init _) as [sk|] eqn:Hsk; [|discriminate].
  destruct (b64decode pk) as [pkb|] eqn:Hd; [|discriminate].
  destruct (PublicKey_init pkb) as [rk|] eqn:Hrk; [|discriminate].
  destruct (Utf8.encode msg) as [mb|] eqn:He; [|discriminate].
  destruct (Box_init sk rk) as [box|] eqn:Hbox; [|discriminate].
  destruct (Box_encrypt_pure box mb _) as [encrypted|] eqn:Henc; [|discriminate].
  intros H. injection H as <- <-.
  apply PrivateKey_init_inv in Hsk as (Hraw & Hseed & Hpk & Hbase).
  apply PublicKey_init_inv in Hrk as (Hrk & Hpkb).
  apply Box_init_inv in Hbox. rewrite Hraw, Hrk in Hbox.
  apply Box_encrypt_pure_inv in Henc as (Hn & ->).
  rewrite drop_nonce by assumption. rewrite Hpk.
  exists mb, pkb, (shared_key box). auto 12.
Qed.

(** When the inputs are accepted and the primitives do their part,
    [encrypt_message] returns this envelope. *)
Lemma encrypt_message_run (pk msg : str) (w : world) (pkb mb k : bytes) :
  _validate_message msg = Ok tt -> _validate_public_key pk = Ok tt ->
  b64decode pk = Ok pkb -> len pkb = 32 -> Utf8.encode msg = Ok mb ->
  let seed := fst (os_random 32 (entropy w)) in
  let nonce := fst (os_random 24 (snd (os_random 32 (entropy w)))) in
  len seed = 32 -> len (crypto_scalarmult_base seed) = 32 -> len nonce = 24 ->
  crypto_box_beforenm pkb seed = Some k ->
  exists w',
    encrypt_message pk msg w =
      (Ok (vars {| version := VERSION;
                   nonce := b64text nonce;
                   ephemPublicKey := b64text (crypto_scalarmult_base seed);
                   ciphertext := b64text (crypto_box_afternm mb nonce k) |}),
       w').
Proof.
  intros Hm Hk Hd Hl He seed nonce Hs Hb Hn Hbox. subst seed nonce.
  rewrite encrypt_message_eq. cbv zeta.
  rewrite Hm, Hk, (PrivateKey_init_ok _ Hs Hb), Hd, (PublicKey_init_ok _ Hl), He.
  unfold Box_init. cbn [pk_raw sk_raw]. rewrite Hbox.
  unfold Box_encrypt_pure, Box_NONCE_SIZE. rewrite Hn.
  cbn [Z.eqb Pos.eqb negb raise_if rbind shared_key pk_raw public_key].
  rewrite drop_nonce by assumption.
  eexists. reflexivity.
Qed.

Lemma generate_key_pair_inv (w w' : world) (K : dict) :
  generate_key_pair w = (Ok K, w') ->
  let seed := fst (os_random 32 (entropy w)) in
  len seed = 32 /\ len (crypto_scalarmult_base seed) = 32 /\
  K = <[lit "privateKey" := b64text seed]>
        (<[lit "publicKey" := b64text (crypto_scalarmult_base seed)]> ∅).
Proof.
  rewrite generate_key_pair_eq. cbv zeta.
  destruct (PrivateKey_init _) as [sk|] eqn:Hsk; [|discriminate].
  apply PrivateKey_init_inv in Hsk as (Hraw & Hseed & Hpk & Hbase).
  intros H. injection H as <- <-. rewrite Hraw, Hpk. auto.
Qed.

Lemma key_pair_public (a b : str) :
  (<[lit "privateKey" := a]> (<[lit "publicKey" := b]> (∅ : dict)))
    !! lit "publicKey" = Some b.
Proof. by simplify_map_eq. Qed.

Lemma key_pair_private (a b : str) :
  (<[lit "privateKey" := a]> (<[lit "publicKey" := b]> (∅ : dict)))
    !! lit "privateKey" = Some a.
Proof. by simplify_map_eq. Qed.

Lemma len_32_nonempty (data : bytes) : len data = 32 -> data <> [].
Proof. intros H ->. discriminate. Qed.

(** [decrypt_message] on the envelope form, when the key and the
    primitives do their part. *)
Lemma decrypt_message_run (priv : str) (skb nc epk ct k plain : bytes)
    (text : str) (w : world) :
  b64decode priv = Ok skb -> len skb = 32 ->
  len (crypto_scalarmult_base skb) = 32 ->
  len nc = 24 -> len epk = 32 ->
  crypto_box_beforenm epk skb = Some k ->
  crypto_box_open_afternm ct nc k = Some plain ->
  Utf8.decode plain = Ok text ->
  fst (decrypt_message priv
         (vars {| version := VERSION;
                  nonce := b64text nc;
                  ephemPublicKey := b64text epk;
                  ciphertext := b64text ct |}) w) = Ok text.
Proof.
  intros Hd Hs Hb Hn He Hbox Hopen Htext.
  rewrite decrypt_message_eq. cbv zeta.
  rewrite vars_dom.
  rewrite (bool_decide_eq_true_2 (required_fields ⊆ required_fields))
    by reflexivity.
  unfold getitem.
  rewrite vars_version, vars_nonce, vars_ephemPublicKey, vars_ciphertext.
  cbn [version nonce ephemPublicKey ciphertext negb rbind].
  rewrite (bool_decide_eq_true_2 (VERSION = VERSION)) by reflexivity.
  cbn [negb]. unfold _decode_base64 at 1. rewrite Hd. cbn [except_Exception].
  rewrite (PrivateKey_init_ok _ Hs Hb), !decode_base64_b64text,
    (PublicKey_init_ok _ He).
  unfold Box_init. cbn [pk_raw sk_raw]. rewrite Hbox.
  unfold Box_decrypt_pure, Box_NONCE_SIZE. rewrite Hn.
  cbn [Z.eqb Pos.eqb negb raise_if rbind shared_key].
  rewrite Hopen, Htext. reflexivity.
Qed.

End EnvelopeFacts.

(** ** C1: the round trip *)

Section RoundTrip.
Context {N : NaCl}.
Import Enc Base64.

(** What the construction needs of the primitives: the generator returns
    as many bytes as asked, a public key has 32 bytes, both sides of the
    key agreement derive one shared key, and opening a box just made gives
    the message back. *)
Hypothesis random_length :
  forall size g, length (fst (os_random size g)) = size.
Hypothesis scalarmult_base_length :
  forall sk, len sk = 32 -> len (crypto_scalarmult_base sk) = 32.
Hypothesis beforenm_agreement :
  forall a b, len a = 32 -> len b = 32 ->
    exists k,
      crypto_box_beforenm (crypto_scalarmult_base a) b = Some k /\
      crypto_box_beforenm (crypto_scalarmult_base b) a = Some k.
Hypothesis open_afternm :
  forall message nonce k, len nonce = 24 ->
    crypto_box_open_afternm (crypto_box_afternm message nonce k) nonce k
    = Some message.

(** C1. For every key pair [K] that [generate_key_pair] returns and every
    message [msg] whose UTF-8 encoding has between 1 and 1,048,576 bytes,
    [encrypt_message] with the public key of [K] returns an envelope, and
    [decrypt_message] with the private key of [K] returns [msg] for that
    envelope. *)
Theorem round_trip (w_gen w_gen' w_enc : world) (K : dict) (msg : str)
    (msg_bytes : bytes) :
  generate_key_pair w_gen = (Ok K, w_gen') ->
  Utf8.encode msg = Ok msg_bytes ->
  0 < len msg_bytes <= 1048576 ->
  exists publicKey privateKey,
    K !! lit "publicKey" = Some publicKey /\
    K !! lit "privateKey" = Some privateKey /\
    exists envelope w_enc',
      encrypt_message publicKey msg w_enc = (Ok envelope, w_enc') /\
      forall w_dec, fst (decrypt_message privateKey envelope w_dec) = Ok msg.
Proof.
  intros Hgen Henc Hlen.
  apply generate_key_pair_inv in Hgen as (Hseed & Hbase & ->).
  set (a := fst (os_random 32 (entropy w_gen))) in *.
  eexists _, _.
  split; [apply key_pair_public|]. split; [apply key_pair_private|].
  set (e := fst (os_random 32 (entropy w_enc))).
  set (n := fst (os_random 24 (snd (os_random 32 (entropy w_enc))))).
  assert (He : len e = 32) by (unfold len, e; rewrite random_length; reflexivity).
  assert (Hn : len n = 24) by (unfold len, n; rewrite random_length; reflexivity).
  destruct (beforenm_agreement a e Hseed He) as (k & Hk1 & Hk2).
  destruct (encrypt_message_run (b64text (crypto_scalarmult_base a)) msg w_enc
              (crypto_scalarmult_base a) msg_bytes k) as (w' & Hrun); auto.
  - apply validate_message_accepts. eauto.
  - eapply validate_public_key_ok;
      [apply b64text_nonempty, len_32_nonempty, Hbase
      |apply b64decode_b64text|exact Hbase].
  - apply b64decode_b64text.
  - eexists _, w'. split; [exact Hrun|].
    intros w_dec.
    apply (decrypt_message_run _ a _ _ _ k msg_bytes); auto.
    + apply b64decode_b64text.
    + apply utf8_decode_encode, Henc.
Qed.

End RoundTrip.

(** The round trip, run on the small implementation. *)
Lemma round_trip_witness :
  (@Enc.generate_key_pair Toy.nacl Toy.w0 = (Ok Toy.key_pair, Toy.w_generated) /\
   Utf8.encode Toy.hello = Ok (List.map byte_of Toy.hello) /\
   0 < len (List.map byte_of Toy.hello) <= 1048576) /\
  exists publicKey privateKey,
    Toy.key_pair !! lit "publicKey" = Some publicKey /\
    Toy.key_pair !! lit "privateKey" = Some privateKey /\
    exists envelope w_enc',
      @Enc.encrypt_message Toy.nacl publicKey Toy.hello Toy.w_generated
        = (Ok envelope, w_enc') /\
      forall w_dec,
        fst (@Enc.decrypt_message Toy.nacl privateKey envelope w_dec)
        = Ok Toy.hello.
Proof.
  assert (Hg : @Enc.generate_key_pair Toy.nacl Toy.w0
               = (Ok Toy.key_pair, Toy.w_generated))
    by (vm_compute; reflexivity).
  assert (He : Utf8.encode Toy.hello = Ok (List.map byte_of Toy.hello))
    by (vm_compute; reflexivity).
  assert (Hl : 0 < len (List.map byte_of Toy.hello) <= 1048576)
    by (vm_compute; split; [reflexivity|discriminate]).
  split; [auto|].
  exact (@round_trip Toy.nacl toy_random_length toy_scalarmult_base_length
           toy_beforenm_agreement toy_open_afternm
           Toy.w0 Toy.w_generated Toy.w_generated Toy.key_pair Toy.hello
           _ Hg He Hl).
Defined.

(** ** C4: the shape of a returned envelope *)

Section EnvelopeShape.
Context {N : NaCl}.
Import Enc Base64.

(** A box is 16 bytes, the authenticator, longer than its message. *)
Hypothesis afternm_length :
  forall message nonce k,
    len (crypto_box_afternm message nonce k) = len message + 16.

(** C4. An envelope that [encrypt_message] returns (its inputs were then
    accepted) has the version ["x25519-xsalsa20-poly1305"], a nonce field
    that decodes to 24 bytes, an ephemeral public key field that decodes
    to 32 bytes, and a ciphertext field that decodes to 16 bytes more than
    the UTF-8 encoding of the message. *)
Theorem envelope_shape (receiver_public_key msg : str) (w w' : world)
    (env : dict) :
  encrypt_message receiver_public_key msg w = (Ok env, w') ->
  (_validate_message msg = Ok tt /\
   _validate_public_key receiver_public_key = Ok tt) /\
  env !! lit "version" = Some (lit "x25519-xsalsa20-poly1305") /\
  decodes_to (env !! lit "nonce") 24 /\
  decodes_to (env !! lit "ephemPublicKey") 32 /\
  exists msg_bytes,
    Utf8.encode msg = Ok msg_bytes /\
    decodes_to (env !! lit "ciphertext") (len msg_bytes + 16).
Proof.
  intros H.
  apply encrypt_message_inv in H
    as (mb & pkb & k & Hm & Hk & He & _ & _ & _ & Hb & Hn & _ & ->).
  rewrite vars_version, vars_nonce, vars_ephemPublicKey, vars_ciphertext.
  cbn [version nonce ephemPublicKey ciphertext].
  split; [auto|]. split; [reflexivity|]. unfold decodes_to.
  split; [eauto using b64decode_b64text|].
  split; [eauto using b64decode_b64text|].
  exists mb. split; [exact He|].
  eexists _, _. split; [reflexivity|]. split; [apply b64decode_b64text|].
  apply afternm_length.
Qed.

End EnvelopeShape.

(** The envelope of ["hello"] on the small implementation. *)
Lemma envelope_shape_witness :
  @encrypt_message Toy.nacl Toy.receiver_public Toy.hello Toy.w0
    = (Ok Toy.envelope, Toy.w_encrypted) /\
  ((_validate_message Toy.hello = Ok tt /\
    _validate_public_key Toy.receiver_public = Ok tt) /\
   Toy.envelope !! lit "version" = Some (lit "x25519-xsalsa20-poly1305") /\
   decodes_to (Toy.envelope !! lit "nonce") 24 /\
   decodes_to (Toy.envelope !! lit "ephemPublicKey") 32 /\
   exists msg_bytes,
     Utf8.encode Toy.hello = Ok msg_bytes /\
     decodes_to (Toy.envelope !! lit "ciphertext") (len msg_bytes + 16)).
Proof.
  assert (H : @encrypt_message Toy.nacl Toy.receiver_public Toy.hello Toy.w0
              = (Ok Toy.envelope, Toy.w_encrypted))
    by (vm_compute; reflexivity).
  split; [exact H|].
  exact (@envelope_shape Toy.nacl toy_afternm_length _ _ _ _ _ H).
Defined.

(** ** C7: the version gate *)

Section VersionGate.
Context {N : NaCl}.
Import Enc Base64.

(** C7. An envelope whose version field is present and differs from
    ["x25519-xsalsa20-poly1305"] makes [decrypt_message] raise
    [InvalidMessageError], whatever the private key and the other fields
    are, and leaves the world as it was: no call into PyNaCl is made and
    no randomness is drawn. *)
Theorem version_gate (private_key : str) (encrypted_data : dict)
    (v : str) (w : world) :
  encrypted_data !! lit "version" = Some v ->
  v <> lit "x25519-xsalsa20-poly1305" ->
  decrypt_message private_key encrypted_data w
  = (Raise InvalidMessageError, w).
Proof.
  intros Hv Hne.
  apply (decrypt_message_version_mismatch private_key encrypted_data v w Hv).
  exact Hne.
Qed.

End VersionGate.

(** The gate on an envelope that is well-formed but for its version, and
    on a private key that is no key at all. *)
Lemma version_gate_witness :
  (Toy.with_field (lit "version") (lit "x25519-xsalsa20-poly1305-v2")
     !! lit "version" = Some (lit "x25519-xsalsa20-poly1305-v2") /\
   lit "x25519-xsalsa20-poly1305-v2" <> lit "x25519-xsalsa20-poly1305") /\
  @decrypt_message Toy.nacl (lit "not a key")
    (Toy.with_field (lit "version") (lit "x25519-xsalsa20-poly1305-v2"))
    Toy.w_encrypted
  = (Raise InvalidMessageError, Toy.w_encrypted).
Proof.
  assert (H1 : Toy.with_field (lit "version") (lit "x25519-xsalsa20-poly1305-v2")
                 !! lit "version" = Some (lit "x25519-xsalsa20-poly1305-v2"))
    by (vm_compute; reflexivity).
  assert (H2 : lit "x25519-xsalsa20-poly1305-v2" <> lit "x25519-xsalsa20-poly1305")
    by discriminate.
  split; [auto|].
  exact (@version_gate Toy.nacl _ _ _ _ H1 H2).
Defined.

(** ** C3: the fields of an envelope *)

Section EnvelopeFields.
Context {N : NaCl}.
Import Enc Base64.




End EnvelopeFields.


(** ** C5: the bound on the message *)

Section MessageBound.
Context {N : NaCl}.
Import Enc Base64.

Lemma encrypt_message_invalid_message (pk msg : str) (w : world) :
  fst (encrypt_message pk msg w) = Raise InvalidMessageError ->
  _validate_message msg = Raise InvalidMessageError.
Proof.
  rewrite encrypt_message_eq. cbv zeta.
  destruct (_validate_message msg) as [[]|e] eqn:Hm.
  2: { destruct (validate_message_raises _ _ Hm) as [->| ->];
         [reflexivity|discriminate]. }
  destruct (_validate_public_key pk) as [[]|e] eqn:Hk.
  2: { rewrite (validate_public_key_raises _ _ Hk). discriminate. }
  destruct (PrivateKey_init _) as [sk|e] eqn:Hsk.
  2: { destruct (PrivateKey_init_raises _ _ Hsk) as [->| ->]; discriminate. }
  destruct (b64decode pk) as [pkb|e] eqn:Hd.
  2: { destruct (b64decode_raises _ _ Hd) as [->| ->]; discriminate. }
  destruct (PublicKey_init pkb) as [rk|e] eqn:Hrk.
  2: { rewrite (PublicKey_init_raises _ _ Hrk). discriminate. }
  destruct (Utf8.encode msg) as [mb|e] eqn:He.
  2: { rewrite (utf8_encode_raises _ _ He). discriminate. }
  destruct (Box_init sk rk) as [box|e] eqn:Hbox.
  2: { rewrite (Box_init_raises _ _ _ Hbox). discriminate. }
  destruct (Box_encrypt_pure box mb _) as [encrypted|e] eqn:Henc.
  2: { rewrite (Box_encrypt_pure_raises _ _ _ _ Henc). discriminate. }
  discriminate.
Qed.

Lemma encrypt_message_rejects_message (pk msg : str) (w : world) :
  _validate_message msg = Raise InvalidMessageError ->
  encrypt_message pk msg w = (Raise InvalidMessageError, w).
Proof. intros H. rewrite encrypt_message_eq, H. reflexivity. Qed.

(** C5. A message of exactly 1,048,576 UTF-8 bytes passes
    [_validate_message]; one of 1,048,577 bytes or more, and the empty
    message, raise [InvalidMessageError]. [encrypt_message] raises
    [InvalidMessageError] in exactly these cases, whatever the receiver's key
    is, and then leaves the world as it was: no key has been decoded or
    generated and no randomness drawn. *)
Theorem message_length_boundary :
  (forall (msg : str) (encoded : bytes),
     Utf8.encode msg = Ok encoded -> len encoded = 1048576 ->
     _validate_message msg = Ok tt) /\
  (forall (msg : str) (encoded : bytes),
     Utf8.encode msg = Ok encoded -> 1048577 <= len encoded ->
     _validate_message msg = Raise InvalidMessageError) /\
  _validate_message [] = Raise InvalidMessageError /\
  (forall (receiver_public_key msg : str) (w : world),
     fst (encrypt_message receiver_public_key msg w) = Raise InvalidMessageError
     <->
     (msg = [] \/
      exists encoded, Utf8.encode msg = Ok encoded /\ 1048577 <= len encoded)) /\
  (forall (receiver_public_key msg : str) (w : world),
     fst (encrypt_message receiver_public_key msg w) = Raise InvalidMessageError ->
     encrypt_message receiver_public_key msg w = (Raise InvalidMessageError, w)).
Proof.
  split; [|split; [|split; [|split]]].
  - intros msg encoded He Hl. apply validate_message_accepts.
    exists encoded. split; [exact He|lia].
  - intros msg encoded He Hl. apply validate_message_rejects. eauto.
  - reflexivity.
  - intros pk msg w. rewrite <- validate_message_rejects. split.
    + apply encrypt_message_invalid_message.
    + intros H. rewrite (encrypt_message_rejects_message _ _ _ H). reflexivity.
  - intros pk msg w H.
    apply encrypt_message_rejects_message, encrypt_message_invalid_message
      with (pk := pk) (w := w), H.
Qed.

End MessageBound.

(** ** C6: which malformed envelopes raise [InvalidMessageError] *)

Section InvalidEnvelope.
Context {N : NaCl}.
Import Enc Base64.



(** What the code does where C6 fails: a nonce that decodes to another
    length than 24 bytes passes the decoding of the components and is
    refused by [Box.decrypt], outside the block that raises
    [InvalidMessageError]. *)
Lemma decrypt_message_nonce_length (private_key : str) (d : dict) (w : world)
    (priv_key_bytes nonce_bytes ephem_bytes cipher_bytes : bytes)
    (sk : PrivateKey) (tn te tc : str) :
  d !! lit "version" = Some VERSION ->
  b64decode private_key = Ok priv_key_bytes ->
  PrivateKey_init priv_key_bytes = Ok sk ->
  d !! lit "nonce" = Some tn -> b64decode tn = Ok nonce_bytes ->
  d !! lit "ephemPublicKey" = Some te -> b64decode te = Ok ephem_bytes ->
  len ephem_bytes = 32 ->
  d !! lit "ciphertext" = Some tc -> b64decode tc = Ok cipher_bytes ->
  len nonce_bytes <> 24 ->
  fst (decrypt_message private_key d w) = Raise EncryptionError.
Proof.
  intros Hv Hd Hsk Hn Dn He De Hl Hc Dc Hlen.
  assert (Hsub : required_fields ⊆ dom d)
    by (apply required_fields_present; rewrite Hv, Hn, He, Hc; eauto).
  rewrite decrypt_message_eq. cbv zeta.
  rewrite (bool_decide_eq_true_2 _ Hsub). unfold getitem.
  rewrite Hv, Hn, He, Hc. cbn [negb rbind].
  rewrite (bool_decide_eq_true_2 (VERSION = VERSION)) by reflexivity.
  cbn [negb]. unfold _decode_base64. rewrite Hd, Dn, De, Dc.
  cbn [except_Exception]. rewrite Hsk, (PublicKey_init_ok _ Hl).
  destruct (Box_init _ _) as [box|e] eqn:Hbox.
  - rewrite (Box_decrypt_pure_bad_nonce _ _ _ Hlen). reflexivity.
  - rewrite (Box_init_raises _ _ _ Hbox). reflexivity.
Qed.

End InvalidEnvelope.


(** ** C8: [is_valid_key] *)

Section ValidKey.
Context {N : NaCl}.
Import Enc Base64.

(** C8, as the code has it. [is_valid_key] returns [True] for the public
    key (kind ["public"]) and for the private key (kind ["private"]) of
    every pair that [generate_key_pair] returns; it returns [False] for a key
    that decodes to another length than 32 bytes, for either kind; and it
    returns [False] for every input on which [base64.b64decode] raises. *)
Theorem is_valid_key_spec :
  (forall (w w' : world) (K : dict),
     generate_key_pair w = (Ok K, w') ->
     exists publicKey privateKey,
       K !! lit "publicKey" = Some publicKey /\
       K !! lit "privateKey" = Some privateKey /\
       forall w1,
         fst (is_valid_key publicKey (lit "public") w1) = Ok true /\
         fst (is_valid_key privateKey (lit "private") w1) = Ok true) /\
  (forall (key key_type : str) (decoded : bytes) (w : world),
     b64decode key = Ok decoded -> len decoded <> 32 ->
     fst (is_valid_key key key_type w) = Ok false) /\
  (forall (key key_type : str) (e : exn) (w : world),
     b64decode key = Raise e ->
     is_valid_key key key_type w = (Ok false, w)).
Proof.
  split; [|split].
  - intros w w' K H. apply generate_key_pair_inv in H as (Hs & Hb & ->).
    eexists _, _.
    split; [apply key_pair_public|]. split; [apply key_pair_private|].
    intros w1. rewrite !is_valid_key_eq, !b64decode_b64text.
    rewrite (bool_decide_eq_true_2 (lit "public" = lit "public")) by reflexivity.
    rewrite (bool_decide_eq_false_2 (lit "private" = lit "public"))
      by discriminate.
    rewrite Hb, (PrivateKey_init_ok _ Hs Hb). auto.
  - intros key key_type decoded w Hd Hl. rewrite is_valid_key_eq, Hd.
    destruct (bool_decide (key_type = lit "public")).
    + cbn [fst]. f_equal. apply Z.eqb_neq, Hl.
    + rewrite (PrivateKey_init_bad _ Hl). reflexivity.
  - intros key key_type e w Hd. rewrite is_valid_key_eq, Hd. reflexivity.
Qed.

End ValidKey.

(** A key that is not Base64 text, for which [is_valid_key] returns
    [True], for both kinds. *)
Lemma is_valid_key_counterexample :
  is_base64_text Toy.key_with_bang = false /\
  fst (@is_valid_key Toy.nacl Toy.key_with_bang (lit "public") Toy.w0)
  = Ok true /\
  fst (@is_valid_key Toy.nacl Toy.key_with_bang (lit "private") Toy.w0)
  = Ok true.
Proof. repeat apply conj; vm_compute; reflexivity. Qed.

(** ** C9: the kinds of error a caller sees *)

Section ErrorKinds.
Context {N : NaCl}.
Import Enc Base64.

Lemma encrypt_message_raises (pk msg : str) (w w' : world) (e : exn) :
  encrypt_message pk msg w = (Raise e, w') -> is_public_kind e = true.
Proof.
  unfold encrypt_message. intros H.
  apply guarded_raise_inv in H as (e0 & _ & ->). apply surfaced_public.
Qed.

Lemma decrypt_message_raises (private_key : str) (d : dict) (w w' : world)
    (e : exn) :
  decrypt_message private_key d w = (Raise e, w') -> is_public_kind e = true.
Proof.
  unfold decrypt_message. intros H.
  apply guarded_raise_inv in H as (e0 & _ & ->). apply surfaced_public.
Qed.

Lemma generate_key_pair_raises (w w' : world) (e : exn) :
  generate_key_pair w = (Raise e, w') -> e = EncryptionError.
Proof.
  rewrite generate_key_pair_eq. cbv zeta.
  destruct (PrivateKey_init _); [discriminate|].
  intros H. injection H as <- _. reflexivity.
Qed.

Lemma get_public_key_raises (private_key : str) (w w' : world) (e : exn) :
  get_public_key private_key w = (Raise e, w') -> e = InvalidKeyError.
Proof.
  rewrite get_public_key_eq.
  destruct (b64decode private_key) as [skb|];
    [destruct (PrivateKey_init skb); [discriminate|]|];
    intros H; injection H as <- _; reflexivity.
Qed.

Lemma is_valid_key_returns (key key_type : str) (w : world) :
  exists b w', is_valid_key key key_type w = (Ok b, w').
Proof.
  rewrite is_valid_key_eq.
  destruct (b64decode key) as [decoded|]; [|eauto].
  destruct (bool_decide _); [eauto|].
  destruct (PrivateKey_init decoded); eauto.
Qed.

(** C9. An exception that leaves a public operation is an
    [InvalidKeyError], an [InvalidMessageError] or an [EncryptionError]
    ([is_valid_key] raises none). In [encrypt_message] and
    [decrypt_message], an exception that leaves the [try] block reaches the
    caller as itself when it is an [InvalidKeyError] or an
    [InvalidMessageError], and as an [EncryptionError] when it is of any
    other class; a value the block returns is returned as it is. *)
Theorem errors_three_kinds :
  (forall (pk msg : str) (w w' : world) (e : exn),
     encrypt_message pk msg w = (Raise e, w') -> is_public_kind e = true) /\
  (forall (private_key : str) (d : dict) (w w' : world) (e : exn),
     decrypt_message private_key d w = (Raise e, w') ->
     is_public_kind e = true) /\
  (forall (w w' : world) (e : exn),
     generate_key_pair w = (Raise e, w') -> e = EncryptionError) /\
  (forall (private_key : str) (w w' : world) (e : exn),
     get_public_key private_key w = (Raise e, w') -> e = InvalidKeyError) /\
  (forall (d : dict) (e : exn),
     validate_encrypted_message_format d = Raise e ->
     e = InvalidMessageError) /\
  (forall (key key_type : str) (w : world),
     exists b w', is_valid_key key key_type w = (Ok b, w')) /\
  (forall (key : key_arg) (input_encoding : str) (e : exn),
     format_key key input_encoding = Raise e -> e = InvalidKeyError) /\
  (surfaced InvalidKeyError = InvalidKeyError /\
   surfaced InvalidMessageError = InvalidMessageError /\
   forall e, e <> InvalidKeyError -> e <> InvalidMessageError ->
             surfaced e = EncryptionError) /\
  (forall (pk msg : str) (w w' : world) (e : exn),
     encrypt_message_body pk msg w = (Raise e, w') ->
     encrypt_message pk msg w = (Raise (surfaced e), w')) /\
  (forall (private_key : str) (d : dict) (w w' : world) (e : exn),
     decrypt_message_body private_key d w = (Raise e, w') ->
     decrypt_message private_key d w = (Raise (surfaced e), w')) /\
  (forall (pk msg : str) (w w' : world) (env : dict),
     encrypt_message_body pk msg w = (Ok env, w') ->
     encrypt_message pk msg w = (Ok env, w')) /\
  (forall (private_key : str) (d : dict) (w w' : world) (text : str),
     decrypt_message_body private_key d w = (Ok text, w') ->
     decrypt_message private_key d w = (Ok text, w')).
Proof.
  repeat apply conj.
  - apply encrypt_message_raises.
  - apply decrypt_message_raises.
  - apply generate_key_pair_raises.
  - apply get_public_key_raises.
  - apply validate_format_raises.
  - apply is_valid_key_returns.
  - apply format_key_raises.
  - reflexivity.
  - reflexivity.
  - intros e H1 H2. destruct e; try reflexivity; contradiction.
  - intros pk msg w w' e H. unfold encrypt_message.
    rewrite (try_except_raise _ _ _ _ _ H). apply reraise_or_wrap_eq.
  - intros private_key d w w' e H. unfold decrypt_message.
    rewrite (try_except_raise _ _ _ _ _ H). apply reraise_or_wrap_eq.
  - intros pk msg w w' env H. apply try_except_ok, H.
  - intros private_key d w w' text H. apply try_except_ok, H.
Qed.

End ErrorKinds.

(** ** C10: the lenient decoder *)

Section Lenient.
Context {N : NaCl}.
Import Enc Base64.

Lemma filter_data_chars (s : str) :
  forallb (fun c => (0 <=? c) && (c <? 128)) s = true ->
  List.map byte_of (List.filter is_data_char s)
  = List.filter (fun b => is_data_char (byte_val b)) (List.map byte_of s).
Proof.
  induction s as [|c s IH]; [reflexivity|].
  cbn [forallb List.map List.filter]. intros H.
  apply andb_true_iff in H as [Hc Hs].
  rewrite byte_val_of by lia.
  destruct (is_data_char c); cbn [List.map]; rewrite (IH Hs); reflexivity.
Qed.

Lemma filter_keeps_ascii (s : str) :
  forallb (fun c => (0 <=? c) && (c <? 128)) s = true ->
  forallb (fun c => (0 <=? c) && (c <? 128)) (List.filter is_data_char s) = true.
Proof.
  induction s as [|c s IH]; [reflexivity|].
  cbn [forallb List.filter]. intros H.
  apply andb_true_iff in H as [Hc Hs].
  destruct (is_data_char c); cbn [forallb]; rewrite ?Hc, (IH Hs); reflexivity.
Qed.

(** On ASCII text, [b64decode] gives what it gives on the text without the
    characters that are neither in the alphabet nor the pad. *)
Lemma b64decode_filter (s : str) :
  forallb (fun c => (0 <=? c) && (c <? 128)) s = true ->
  b64decode (List.filter is_data_char s) = b64decode s.
Proof.
  intros H. unfold b64decode, ascii_encode.
  rewrite H, (filter_keeps_ascii _ H), (filter_data_chars _ H).
  apply a2b_loop_filter.
Qed.

(** C10. [base64.b64decode], as the public operations call it, skips the
    characters outside the Base64 alphabet: on ASCII text it returns what
    it returns once they are removed. So a string with such a character
    can pass as a key or as an envelope field: the 32-byte key of zeros with
    ["!"] in front decodes to the same 32 bytes, [_validate_public_key] and
    [_decode_base64] accept it, and [is_valid_key] returns [True] for
    it. *)
Theorem b64decode_lenient :
  (forall s : str,
     forallb (fun c => (0 <=? c) && (c <? 128)) s = true ->
     b64decode (List.filter is_data_char s) = b64decode s) /\
  exists s : str,
    (exists c, In c s /\ is_data_char c = false) /\
    is_base64_text s = false /\
    b64decode s = Ok (repeat x00 32) /\
    _validate_public_key s = Ok tt /\
    _decode_base64 s = Ok (repeat x00 32) /\
    forall w, is_valid_key s (lit "public") w = (Ok true, w).
Proof.
  split; [apply b64decode_filter|].
  assert (Hd : b64decode Toy.key_with_bang = Ok (repeat x00 32))
    by (vm_compute; reflexivity).
  exists Toy.key_with_bang. repeat apply conj.
  - exists 33. split; [left; reflexivity|reflexivity].
  - vm_compute; reflexivity.
  - exact Hd.
  - vm_compute; reflexivity.
  - unfold _decode_base64. rewrite Hd. reflexivity.
  - intros w. rewrite is_valid_key_eq, Hd.
    rewrite (bool_decide_eq_true_2 (lit "public" = lit "public")) by reflexivity.
    reflexivity.
Qed.

End Lenient.

(** ** Authentication failure

    Whether a given change of an envelope makes the authenticator fail is a
    matter of the primitives; what the class does when it fails is not: the
    caller gets an [EncryptionError] and no text. *)

Section Rejected.
Context {N : NaCl}.
Import Enc Base64.

(** When the envelope and the key are well-formed and the box does not
    open (the authenticator does not verify under the shared key),
    [decrypt_message] raises [EncryptionError]: no text is returned. *)
Lemma decrypt_message_rejected (private_key : str) (d : dict) (w : world)
    (priv_key_bytes nonce_bytes ephem_bytes cipher_bytes k : bytes)
    (sk : PrivateKey) (tn te tc : str) :
  d !! lit "version" = Some VERSION ->
  b64decode private_key = Ok priv_key_bytes ->
  PrivateKey_init priv_key_bytes = Ok sk ->
  d !! lit "nonce" = Some tn -> b64decode tn = Ok nonce_bytes ->
  d !! lit "ephemPublicKey" = Some te -> b64decode te = Ok ephem_bytes ->
  len ephem_bytes = 32 ->
  d !! lit "ciphertext" = Some tc -> b64decode tc = Ok cipher_bytes ->
  crypto_box_beforenm ephem_bytes priv_key_bytes = Some k ->
  crypto_box_open_afternm cipher_bytes nonce_bytes k = None ->
  fst (decrypt_message private_key d w) = Raise EncryptionError.
Proof.
  intros Hv Hd Hsk Hn Dn He De Hl Hc Dc Hk Hopen.
  assert (Hsub : required_fields ⊆ dom d)
    by (apply required_fields_present; rewrite Hv, Hn, He, Hc; eauto).
  pose proof (PrivateKey_init_inv _ _ Hsk) as (Hraw & _).
  rewrite decrypt_message_eq. cbv zeta.
  rewrite (bool_decide_eq_true_2 _ Hsub). unfold getitem.
  rewrite Hv, Hn, He, Hc. cbn [negb rbind].
  rewrite (bool_decide_eq_true_2 (VERSION = VERSION)) by reflexivity.
  cbn [negb]. unfold _decode_base64. rewrite Hd, Dn, De, Dc.
  cbn [except_Exception]. rewrite Hsk, (PublicKey_init_ok _ Hl).
  unfold Box_init. cbn [pk_raw]. rewrite Hraw, Hk.
  unfold Box_decrypt_pure. cbn [shared_key]. rewrite Hopen.
  destruct (negb _); reflexivity.
Qed.

End Rejected.

(** ** Two runs of the small implementation, for later use *)

Lemma toy_generate_run :
  @generate_key_pair Toy.nacl Toy.w0 = (Ok Toy.key_pair, Toy.w_generated).
Proof. vm_compute. reflexivity. Qed.

Lemma toy_encrypt_run :
  @encrypt_message Toy.nacl Toy.receiver_public Toy.hello Toy.w0
  = (Ok Toy.envelope, Toy.w_encrypted).
Proof. vm_compute. reflexivity. Qed.

(** * Further properties of the class *)

(** ** The Base64 helpers *)

Section Helpers.
Import Enc Base64.

(** [_encode_base64] never raises, writes canonical Base64 text, and
    [_decode_base64] gives the bytes back. *)
Theorem base64_helpers_round_trip (data : bytes) :
  exists text,
    _encode_base64 data = Ok text /\
    is_base64_text text = true /\
    _decode_base64 text = Ok data.
Proof.
  exists (b64text data).
  split; [apply encode_base64_eq|].
  split; [apply b64text_canonical|apply decode_base64_b64text].
Qed.

Lemma ascii_encode_non_ascii (s : str) (c : Z) :
  In c s -> c < 0 \/ 128 <= c -> ascii_encode s = Raise UnicodeEncodeError.
Proof.
  intros Hin Hc. unfold ascii_encode.
  destruct (forallb _ s) eqn:E; [|reflexivity].
  rewrite forallb_forall in E. specialize (E c Hin). lia.
Qed.

(** [_decode_base64] raises nothing but [EncryptionError]; it does so on
    every text with a character outside ASCII; the empty text decodes to no
    bytes. *)
Theorem decode_base64_errors :
  (forall (s : str) (e : exn), _decode_base64 s = Raise e -> e = EncryptionError) /\
  (forall (s : str) (c : Z),
     In c s -> c < 0 \/ 128 <= c -> _decode_base64 s = Raise EncryptionError) /\
  _decode_base64 [] = Ok [].
Proof.
  split; [|split].
  - intros s e. unfold _decode_base64, except_Exception.
    destruct (b64decode s); congruence.
  - intros s c Hin Hc. unfold _decode_base64, b64decode.
    rewrite (ascii_encode_non_ascii s c Hin Hc). reflexivity.
  - reflexivity.
Qed.

End Helpers.

(** ** [validate_encrypted_message_format] *)

Section ValidateFormat.
Import Enc Base64.

Lemma check_fields_ok (fields : list str) (d : dict) :
  check_fields fields d = Ok tt <->
  forall f, In f fields -> exists v : str, d !! f = Some v /\ v <> [].
Proof.
  induction fields as [|f fields IH]; cbn [check_fields].
  - split; [intros _ g []|reflexivity].
  - unfold getitem. split.
    + destruct (d !! f) as [v|] eqn:Hv; cbn [rbind]; [|discriminate].
      destruct v as [|c v]; cbn; [discriminate|].
      intros H g [<-|Hg]; [exists (c :: v); split; [exact Hv|discriminate]|].
      apply IH; assumption.
    + intros H. destruct (H f (or_introl eq_refl)) as (v & Hv & Hne).
      rewrite Hv. cbn [rbind]. destruct v as [|c v]; [contradiction|].
      cbn. apply IH. intros g Hg. apply H. right. exact Hg.
Qed.

Lemma validate_format_accepts (d : dict) :
  validate_encrypted_message_format d = Ok tt <->
  forall f, f ∈ required_fields -> exists v : str, d !! f = Some v /\ v <> [].
Proof.
  unfold validate_encrypted_message_format. cbv zeta. split.
  - destruct (bool_decide (required_fields ∖ dom d = ∅));
      cbn [negb raise_if rbind]; [|discriminate].
    intros H f Hf.
    pose proof (proj2 (elem_of_elements required_fields f) Hf) as Hel.
    pose proof (proj1 (list_elem_of_In _ _) Hel) as Hin.
    exact (proj1 (check_fields_ok _ d) H f Hin).
  - intros H.
    rewrite (bool_decide_eq_true_2 (required_fields ∖ dom d = ∅)).
    + cbn [negb raise_if rbind]. apply check_fields_ok. intros f Hf.
      apply H. apply list_elem_of_In, elem_of_elements in Hf. exact Hf.
    + apply elem_of_equiv_empty_L. intros f Hf.
      apply elem_of_difference in Hf as [Hf Hn]. apply Hn, elem_of_dom.
      destruct (H f Hf) as (v & Hv & _). eauto.
Qed.

(** [validate_encrypted_message_format] accepts a mapping exactly when each
    of the four required fields is there and is not empty (other fields are
    not looked at); every other mapping raises [InvalidMessageError], the
    empty one included. *)
Theorem validate_format_spec :
  (forall d : dict,
     validate_encrypted_message_format d = Ok tt <->
     forall f,
       f ∈ ({[ lit "version"; lit "nonce"; lit "ephemPublicKey";
               lit "ciphertext" ]} : gset str) ->
       exists v : str, d !! f = Some v /\ v <> []) /\
  (forall d : dict,
     validate_encrypted_message_format d = Ok tt \/
     validate_encrypted_message_format d = Raise InvalidMessageError) /\
  validate_encrypted_message_format ∅ = Raise InvalidMessageError.
Proof.
  split; [apply validate_format_accepts|]. split.
  - intros d. destruct (validate_encrypted_message_format d) as [[]|e] eqn:E;
      [left; reflexivity|right].
    rewrite (validate_format_raises d e E). reflexivity.
  - destruct (validate_encrypted_message_format ∅) as [[]|e] eqn:E.
    + apply validate_format_accepts with (f := lit "version") in E
        as (v & Hv & _).
      * rewrite lookup_empty in Hv. discriminate.
      * unfold required_fields. rewrite !elem_of_union, !elem_of_singleton.
        auto.
    + rewrite (validate_format_raises _ e E). reflexivity.
Qed.

End ValidateFormat.

(** ** Keys: [generate_key_pair], [get_public_key], [is_valid_key],
    [_validate_public_key] *)

Section Keys.
Context {N : NaCl}.
Import Enc Base64.

Lemma key_pair_dom (a b : str) :
  dom (<[lit "privateKey" := a]> (<[lit "publicKey" := b]> (∅ : dict)))
  = ({[ lit "privateKey"; lit "publicKey" ]} : gset str).
Proof. rewrite !dom_insert_L, dom_empty_L. set_solver. Qed.

(** A pair that [generate_key_pair] returns has exactly the two fields
    [privateKey] and [publicKey], each Base64 text for 32 bytes, the public
    key being the one derived from the private key; one draw of 32 random
    bytes and one call of [PrivateKey] were made. *)
Theorem generate_key_pair_shape (w w' : world) (K : dict) :
  generate_key_pair w = (Ok K, w') ->
  dom K = ({[ lit "privateKey"; lit "publicKey" ]} : gset str) /\
  (exists (privateKey publicKey : str) (sk : bytes),
     K !! lit "privateKey" = Some privateKey /\
     K !! lit "publicKey" = Some publicKey /\
     is_base64_text privateKey = true /\ is_base64_text publicKey = true /\
     b64decode privateKey = Ok sk /\ len sk = 32 /\
     b64decode publicKey = Ok (crypto_scalarmult_base sk) /\
     len (crypto_scalarmult_base sk) = 32) /\
  w' = World (snd (os_random 32 (entropy w)))
             (nacl_calls w ++ [Call_random 32%nat; Call_PrivateKey]).
Proof.
  intros H. pose proof (generate_key_pair_inv _ _ _ H) as (Hs & Hb & ->).
  split; [apply key_pair_dom|]. split.
  - eexists _, _, _.
    split; [apply key_pair_private|]. split; [apply key_pair_public|].
    split; [apply b64text_canonical|]. split; [apply b64text_canonical|].
    split; [apply b64decode_b64text|]. split; [exact Hs|].
    split; [apply b64decode_b64text|exact Hb].
  - apply (f_equal snd) in H. cbn [snd] in H. rewrite <- H.
    rewrite generate_key_pair_eq. cbv zeta.
    destruct (PrivateKey_init _); cbn [snd]; unfold log_call;
      cbn [entropy nacl_calls]; rewrite <- app_assoc; reflexivity.
Qed.

(** [get_public_key] on the private key of a generated pair returns the
    public key of that pair. *)
Theorem get_public_key_of_generated (w w' w1 : world) (K : dict) :
  generate_key_pair w = (Ok K, w') ->
  exists publicKey privateKey : str,
    K !! lit "publicKey" = Some publicKey /\
    K !! lit "privateKey" = Some privateKey /\
    fst (get_public_key privateKey w1) = Ok publicKey.
Proof.
  intros H. apply generate_key_pair_inv in H as (Hs & Hb & ->).
  eexists _, _.
  split; [apply key_pair_public|]. split; [apply key_pair_private|].
  rewrite get_public_key_eq, b64decode_b64text, (PrivateKey_init_ok _ Hs Hb).
  reflexivity.
Qed.

(** [get_public_key] raises [InvalidKeyError] for a private key that does
    not decode (leaving the world as it was) or that decodes to another
    length than 32 bytes; a key it returns is canonical Base64 text for 32
    bytes, which [_validate_public_key] accepts. *)
Theorem get_public_key_spec :
  (forall (private_key : str) (e : exn) (w : world),
     b64decode private_key = Raise e ->
     get_public_key private_key w = (Raise InvalidKeyError, w)) /\
  (forall (private_key : str) (decoded : bytes) (w : world),
     b64decode private_key = Ok decoded -> len decoded <> 32 ->
     fst (get_public_key private_key w) = Raise InvalidKeyError) /\
  (forall (private_key public_key : str) (w w' : world),
     get_public_key private_key w = (Ok public_key, w') ->
     is_base64_text public_key = true /\
     decodes_to (Some public_key) 32 /\
     _validate_public_key public_key = Ok tt).
Proof.
  split; [|split].
  - intros private_key e w Hd. rewrite get_public_key_eq, Hd. reflexivity.
  - intros private_key decoded w Hd Hl.
    rewrite get_public_key_eq, Hd, (PrivateKey_init_bad _ Hl). reflexivity.
  - intros private_key public_key w w'. rewrite get_public_key_eq.
    destruct (b64decode private_key) as [skb|]; [|discriminate].
    destruct (PrivateKey_init skb) as [sk|] eqn:Hsk; [|discriminate].
    apply PrivateKey_init_inv in Hsk as (_ & _ & Hpk & Hb).
    intros H. injection H as <- _. rewrite Hpk.
    split; [apply b64text_canonical|]. split.
    + eexists _, _. split; [reflexivity|].
      split; [apply b64decode_b64text|exact Hb].
    + eapply validate_public_key_ok;
        [apply b64text_nonempty, len_32_nonempty, Hb
        |apply b64decode_b64text|exact Hb].
Qed.

(** [_validate_public_key] and [is_valid_key] with kind ["public"] judge
    every string alike: the one accepts exactly the keys for which the other
    returns [True]. *)
Theorem validate_public_key_iff_is_valid_key (key : str) (w : world) :
  _validate_public_key key = Ok tt <->
  fst (is_valid_key key (lit "public") w) = Ok true.
Proof.
  rewrite is_valid_key_eq.
  rewrite (bool_decide_eq_true_2 (lit "public" = lit "public")) by reflexivity.
  split.
  - intros H. apply validate_public_key_inv in H as (_ & decoded & -> & ->).
    reflexivity.
  - destruct key as [|c key]; [cbn; discriminate|].
    destruct (b64decode (c :: key)) as [decoded|] eqn:Hd; [|discriminate].
    cbn [fst]. intros H. injection H as H. apply Z.eqb_eq in H.
    eapply validate_public_key_ok; [discriminate|exact Hd|exact H].
Qed.

(** [get_public_key] returns a key exactly for the private keys for which
    [is_valid_key] with kind ["private"] returns [True]; and [is_valid_key]
    treats every kind other than ["public"] as ["private"]. *)
Theorem get_public_key_iff_valid_private :
  (forall (private_key : str) (w : world),
     (exists public_key w', get_public_key private_key w = (Ok public_key, w'))
     <-> fst (is_valid_key private_key (lit "private") w) = Ok true) /\
  (forall (key key_type : str) (w : world),
     key_type <> lit "public" ->
     is_valid_key key key_type w = is_valid_key key (lit "private") w).
Proof.
  split.
  - intros private_key w. rewrite get_public_key_eq, is_valid_key_eq.
    rewrite (bool_decide_eq_false_2 (lit "private" = lit "public"))
      by discriminate.
    destruct (b64decode private_key) as [skb|].
    + destruct (PrivateKey_init skb); split; eauto;
        [intros (p & w' & H)|]; discriminate.
    + split; [intros (p & w' & H)|]; discriminate.
  - intros key key_type w Hk. rewrite !is_valid_key_eq.
    rewrite (bool_decide_eq_false_2 _ Hk).
    rewrite (bool_decide_eq_false_2 (lit "private" = lit "public"))
      by discriminate.
    reflexivity.
Qed.

(** [decrypt_message], [get_public_key] and [is_valid_key] never draw
    randomness: the generator is after the call what it was before, whatever
    the inputs and the outcome. *)
Theorem no_randomness_drawn :
  (forall (private_key : str) (d : dict) (w : world),
     entropy (snd (decrypt_message private_key d w)) = entropy w) /\
  (forall (private_key : str) (w : world),
     entropy (snd (get_public_key private_key w)) = entropy w) /\
  (forall (key key_type : str) (w : world),
     entropy (snd (is_valid_key key key_type w)) = entropy w).
Proof.
  split; [|split].
  - intros private_key d w. rewrite decrypt_message_eq. cbv zeta.
    repeat match goal with
    | |- context [match ?x with _ => _ end] => destruct x
    | |- context [if ?x then _ else _] => destruct x
    end; reflexivity.
  - intros private_key w. rewrite get_public_key_eq.
    repeat match goal with
    | |- context [match ?x with _ => _ end] => destruct x
    end; reflexivity.
  - intros key key_type w. rewrite is_valid_key_eq.
    repeat match goal with
    | |- context [match ?x with _ => _ end] => destruct x
    | |- context [if ?x then _ else _] => destruct x
    end; reflexivity.
Qed.

End Keys.

(** A pair generated on the small implementation. *)
Lemma generate_key_pair_shape_witness :
  @generate_key_pair Toy.nacl Toy.w0 = (Ok Toy.key_pair, Toy.w_generated) /\
  (dom Toy.key_pair = ({[ lit "privateKey"; lit "publicKey" ]} : gset str) /\
   (exists (privateKey publicKey : str) (sk : bytes),
      Toy.key_pair !! lit "privateKey" = Some privateKey /\
      Toy.key_pair !! lit "publicKey" = Some publicKey /\
      is_base64_text privateKey = true /\ is_base64_text publicKey = true /\
      b64decode privateKey = Ok sk /\ len sk = 32 /\
      b64decode publicKey = Ok (@crypto_scalarmult_base Toy.nacl sk) /\
      len (@crypto_scalarmult_base Toy.nacl sk) = 32) /\
   Toy.w_generated
   = @World Toy.nacl (snd (@os_random Toy.nacl 32 (entropy Toy.w0)))
       (nacl_calls Toy.w0 ++ [Call_random 32%nat; Call_PrivateKey])).
Proof.
  pose proof toy_generate_run as H.
  split; [exact H|].
  exact (@generate_key_pair_shape Toy.nacl _ _ _ H).
Defined.

Lemma get_public_key_of_generated_witness :
  @generate_key_pair Toy.nacl Toy.w0 = (Ok Toy.key_pair, Toy.w_generated) /\
  exists publicKey privateKey : str,
    Toy.key_pair !! lit "publicKey" = Some publicKey /\
    Toy.key_pair !! lit "privateKey" = Some privateKey /\
    fst (@get_public_key Toy.nacl privateKey Toy.w_generated) = Ok publicKey.
Proof.
  pose proof toy_generate_run as H.
  split; [exact H|].
  exact (@get_public_key_of_generated Toy.nacl _ _ Toy.w_generated _ H).
Defined.

(** ** [format_key] *)

Section FormatKey.
Import Enc Base64.

(** What [format_key] returns always decodes: for raw bytes, to those
    bytes; for hex text, to the bytes the digits spell; Base64 text is
    returned as it was given (also when it holds characters the decoder
    skips). A kind of argument that does not fit the encoding, and an
    encoding that is none of the three, raise [InvalidKeyError]. *)
Theorem format_key_spec :
  (forall (key : key_arg) (input_encoding text : str),
     format_key key input_encoding = Ok text ->
     match key with
     | KeyBytes b => input_encoding = lit "raw" /\ b64decode text = Ok b
     | KeyStr s =>
         (input_encoding = lit "base64" /\ text = s /\
          exists data, b64decode s = Ok data) \/
         (input_encoding = lit "hex" /\
          exists data, fromhex s = Ok data /\ b64decode text = Ok data)
     end) /\
  (forall (b : bytes), format_key (KeyBytes b) (lit "raw") = Ok (b64text b)) /\
  (forall (b : bytes) (input_encoding : str),
     input_encoding <> lit "raw" ->
     format_key (KeyBytes b) input_encoding = Raise InvalidKeyError) /\
  (forall (s input_encoding : str),
     input_encoding <> lit "base64" -> input_encoding <> lit "hex" ->
     format_key (KeyStr s) input_encoding = Raise InvalidKeyError) /\
  (forall (s : str) (e : exn),
     b64decode s = Raise e ->
     format_key (KeyStr s) (lit "base64") = Raise InvalidKeyError) /\
  (forall (s : str) (e : exn),
     fromhex s = Raise e ->
     format_key (KeyStr s) (lit "hex") = Raise InvalidKeyError).
Proof.
  repeat apply conj.
  - intros key input_encoding text. unfold format_key.
    destruct key as [s|b].
    + destruct (bool_decide (input_encoding = lit "base64")) eqn:E1.
      * apply bool_decide_eq_true in E1.
        destruct (b64decode s) as [data|] eqn:Hd; cbn; [|discriminate].
        intros H. injection H as <-. left. eauto.
      * destruct (bool_decide (input_encoding = lit "hex")) eqn:E2;
          [|discriminate].
        apply bool_decide_eq_true in E2.
        destruct (fromhex s) as [data|] eqn:Hd; cbn; [|discriminate].
        rewrite b64encode_str_eq. cbn. intros H. injection H as <-.
        right. split; [exact E2|]. exists data.
        split; [reflexivity|apply b64decode_b64text].
    + destruct (bool_decide (input_encoding = lit "raw")) eqn:E1;
        [|discriminate].
      apply bool_decide_eq_true in E1. rewrite b64encode_str_eq. cbn.
      intros H. injection H as <-. split; [exact E1|apply b64decode_b64text].
  - intros b. unfold format_key.
    rewrite (bool_decide_eq_true_2 (lit "raw" = lit "raw")) by reflexivity.
    rewrite b64encode_str_eq. reflexivity.
  - intros b input_encoding H. unfold format_key.
    rewrite (bool_decide_eq_false_2 _ H). reflexivity.
  - intros s input_encoding H1 H2. unfold format_key.
    rewrite (bool_decide_eq_false_2 _ H1), (bool_decide_eq_false_2 _ H2).
    reflexivity.
  - intros s e H. unfold format_key.
    rewrite (bool_decide_eq_true_2 (lit "base64" = lit "base64")) by reflexivity.
    rewrite H. reflexivity.
  - intros s e H. unfold format_key.
    rewrite (bool_decide_eq_false_2 (lit "hex" = lit "base64")) by discriminate.
    rewrite (bool_decide_eq_true_2 (lit "hex" = lit "hex")) by reflexivity.
    rewrite H. reflexivity.
Qed.

End FormatKey.

(** ** [encrypt_message]: errors, effects, and what it returns *)

Section EncryptMore.
Context {N : NaCl}.
Import Enc Base64.

Lemma validate_public_key_rejects (key : str) :
  _validate_public_key key = Raise InvalidKeyError <->
  ~ (key <> [] /\ exists decoded, b64decode key = Ok decoded /\ len decoded = 32).
Proof.
  split.
  - intros H (Hne & decoded & Hd & Hl).
    rewrite (validate_public_key_ok _ _ Hne Hd Hl) in H. discriminate.
  - intros H. destruct (_validate_public_key key) as [[]|e] eqn:E.
    + exfalso. apply H. apply validate_public_key_inv, E.
    + rewrite (validate_public_key_raises _ _ E). reflexivity.
Qed.

Lemma encrypt_message_invalid_key (pk msg : str) (w : world) :
  fst (encrypt_message pk msg w) = Raise InvalidKeyError ->
  _validate_message msg = Ok tt /\
  _validate_public_key pk = Raise InvalidKeyError.
Proof.
  rewrite encrypt_message_eq. cbv zeta.
  destruct (_validate_message msg) as [[]|e] eqn:Hm.
  2: { destruct (validate_message_raises _ _ Hm) as [->| ->]; discriminate. }
  destruct (_validate_public_key pk) as [[]|e] eqn:Hk.
  2: { rewrite (validate_public_key_raises _ _ Hk). auto. }
  destruct (PrivateKey_init _) as [sk|e] eqn:Hsk.
  2: { destruct (PrivateKey_init_raises _ _ Hsk) as [->| ->]; discriminate. }
  destruct (b64decode pk) as [pkb|e] eqn:Hd.
  2: { destruct (b64decode_raises _ _ Hd) as [->| ->]; discriminate. }
  destruct (PublicKey_init pkb) as [rk|e] eqn:Hrk.
  2: { rewrite (PublicKey_init_raises _ _ Hrk). discriminate. }
  destruct (Utf8.encode msg) as [mb|e] eqn:He.
  2: { rewrite (utf8_encode_raises _ _ He). discriminate. }
  destruct (Box_init sk rk) as [box|e] eqn:Hbox.
  2: { rewrite (Box_init_raises _ _ _ Hbox). discriminate. }
  destruct (Box_encrypt_pure box mb _) as [encrypted|e] eqn:Henc.
  2: { rewrite (Box_encrypt_pure_raises _ _ _ _ Henc). discriminate. }
  discriminate.
Qed.

(** [encrypt_message] raises [InvalidKeyError] exactly when the message is
    accepted and the receiver's key is empty, does not decode, or decodes to
    another length than 32 bytes; the world is then as it was. The message is
    judged first: with a rejected message the error is the message's,
    whatever the key. *)
Theorem encrypt_message_invalid_key_iff :
  (forall (receiver_public_key msg : str) (w : world),
     fst (encrypt_message receiver_public_key msg w) = Raise InvalidKeyError
     <->
     (_validate_message msg = Ok tt /\
      ~ (receiver_public_key <> [] /\
         exists decoded,
           b64decode receiver_public_key = Ok decoded /\ len decoded = 32))) /\
  (forall (receiver_public_key msg : str) (w : world),
     fst (encrypt_message receiver_public_key msg w) = Raise InvalidKeyError ->
     encrypt_message receiver_public_key msg w = (Raise InvalidKeyError, w)) /\
  (forall (receiver_public_key msg : str) (w : world) (e : exn),
     _validate_message msg = Raise e ->
     fst (encrypt_message receiver_public_key msg w) <> Raise InvalidKeyError).
Proof.
  split; [|split].
  - intros pk msg w. rewrite <- validate_public_key_rejects. split.
    + apply encrypt_message_invalid_key.
    + intros [Hm Hk]. rewrite encrypt_message_eq, Hm, Hk. reflexivity.
  - intros pk msg w H. apply encrypt_message_invalid_key in H as [Hm Hk].
    rewrite encrypt_message_eq, Hm, Hk. reflexivity.
  - intros pk msg w e Hm H. apply encrypt_message_invalid_key in H as [Hm' _].
    congruence.
Qed.


End EncryptMore.

Section EncryptReturns.
Context {N : NaCl}.
Import Enc Base64.

Hypothesis random_length :
  forall size g, length (fst (os_random size g)) = size.
Hypothesis scalarmult_base_length :
  forall sk, len sk = 32 -> len (crypto_scalarmult_base sk) = 32.
Hypothesis afternm_length :
  forall message nonce k,
    len (crypto_box_afternm message nonce k) = len message + 16.

(** With accepted inputs, [encrypt_message] returns an envelope unless
    the key agreement refuses the receiver's key, and then it raises
    [EncryptionError]. *)
Theorem encrypt_message_returns (receiver_public_key msg : str) (w : world) :
  _validate_message msg = Ok tt ->
  _validate_public_key receiver_public_key = Ok tt ->
  exists pub_key_bytes,
    b64decode receiver_public_key = Ok pub_key_bytes /\
    match crypto_box_beforenm pub_key_bytes (fst (os_random 32 (entropy w))) with
    | Some _ => exists env w', encrypt_message receiver_public_key msg w = (Ok env, w')
    | None => fst (encrypt_message receiver_public_key msg w) = Raise EncryptionError
    end.
Proof.
  intros Hm Hk.
  pose proof (validate_public_key_inv _ Hk) as (_ & pkb & Hd & Hl).
  pose proof (proj1 (validate_message_accepts msg) Hm) as (mb & He & _).
  exists pkb. split; [exact Hd|].
  assert (Hs : len (fst (os_random 32 (entropy w))) = 32)
    by (unfold len; rewrite random_length; reflexivity).
  assert (Hn : len (fst (os_random 24 (snd (os_random 32 (entropy w))))) = 24)
    by (unfold len; rewrite random_length; reflexivity).
  pose proof (scalarmult_base_length _ Hs) as Hb.
  destruct (crypto_box_beforenm pkb _) as [k|] eqn:Hbox.
  - destruct (encrypt_message_run receiver_public_key msg w pkb mb k)
      as (w' & Hrun); auto.
    eauto.
  - rewrite encrypt_message_eq. cbv zeta.
    rewrite Hm, Hk, (PrivateKey_init_ok _ Hs Hb), Hd, (PublicKey_init_ok _ Hl), He.
    unfold Box_init. cbn [pk_raw sk_raw]. rewrite Hbox. reflexivity.
Qed.

(** An envelope that [encrypt_message] returns passes
    [validate_encrypted_message_format]. *)
Theorem encrypt_message_passes_validation (receiver_public_key msg : str)
    (w w' : world) (env : dict) :
  encrypt_message receiver_public_key msg w = (Ok env, w') ->
  validate_encrypted_message_format env = Ok tt.
Proof.
  intros H.
  apply encrypt_message_inv in H
    as (mb & pkb & k & _ & _ & _ & _ & _ & _ & Hb & Hn & _ & ->).
  apply validate_format_accepts. intros f Hf. unfold required_fields in Hf.
  rewrite !elem_of_union, !elem_of_singleton in Hf.
  destruct Hf as [[[->| ->]| ->]| ->].
  - rewrite vars_version. eexists. split; [reflexivity|discriminate].
  - rewrite vars_nonce. eexists. split; [reflexivity|].
    apply b64text_nonempty. intros E. rewrite E in Hn. discriminate.
  - rewrite vars_ephemPublicKey. eexists. split; [reflexivity|].
    apply b64text_nonempty, len_32_nonempty, Hb.
  - rewrite vars_ciphertext. eexists. split; [reflexivity|].
    apply b64text_nonempty. intros E.
    pose proof (afternm_length mb (fst (os_random 24 (snd (os_random 32 (entropy w))))) k) as Hl.
    rewrite E in Hl. pose proof (len_nonneg mb). unfold len in Hl at 1.
    simpl in Hl. lia.
Qed.

End EncryptReturns.


Lemma encrypt_message_returns_witness :
  (_validate_message Toy.hello = Ok tt /\
   _validate_public_key Toy.receiver_public = Ok tt) /\
  exists pub_key_bytes,
    b64decode Toy.receiver_public = Ok pub_key_bytes /\
    match @crypto_box_beforenm Toy.nacl pub_key_bytes
            (fst (@os_random Toy.nacl 32 (entropy Toy.w0))) with
    | Some _ =>
        exists env w',
          @encrypt_message Toy.nacl Toy.receiver_public Toy.hello Toy.w0
          = (Ok env, w')
    | None =>
        fst (@encrypt_message Toy.nacl Toy.receiver_public Toy.hello Toy.w0)
        = Raise EncryptionError
    end.
Proof.
  assert (Hm : _validate_message Toy.hello = Ok tt) by (vm_compute; reflexivity).
  assert (Hk : _validate_public_key Toy.receiver_public = Ok tt)
    by (vm_compute; reflexivity).
  split; [auto|].
  exact (@encrypt_message_returns Toy.nacl toy_random_length
           toy_scalarmult_base_length _ _ Toy.w0 Hm Hk).
Defined.

Lemma encrypt_message_passes_validation_witness :
  @encrypt_message Toy.nacl Toy.receiver_public Toy.hello Toy.w0
    = (Ok Toy.envelope, Toy.w_encrypted) /\
  validate_encrypted_message_format Toy.envelope = Ok tt.
Proof.
  pose proof toy_encrypt_run as H.
  split; [exact H|].
  exact (@encrypt_message_passes_validation Toy.nacl toy_afternm_length
           _ _ _ _ _ H).
Defined.

(** ** [decrypt_message]: what it returns, and when the key is to blame *)

Section DecryptMore.
Context {N : NaCl}.
Import Enc Base64.

Lemma rmap_raise_inv {A B} (f : A -> B) (r : result A) (e : exn) :
  rmap f r = Raise e -> r = Raise e.
Proof.
  unfold rmap, rbind. destruct r; [discriminate|].
  intros H. injection H as ->. reflexivity.
Qed.

Lemma utf8_decode_raises_upto (n : nat) (bs : bytes) (e : exn) :
  (length bs <= n)%nat -> Utf8.decode bs = Raise e -> e = UnicodeDecodeError.
Proof.
  revert bs. induction n as [|n IH]; intros bs Hn.
  - destruct bs; [discriminate|simpl in Hn; lia].
  - destruct bs as [|b0 r0]; [discriminate|]. cbn [Utf8.decode].
    simpl in Hn.
    repeat match goal with
    | |- (if ?c then _ else _) = _ -> _ => destruct c
    | |- match ?l with [] => _ | _ :: _ => _ end = _ -> _ =>
        destruct l; simpl in Hn
    | |- Raise _ = Raise _ -> _ => congruence
    | |- rmap _ _ = Raise _ -> _ =>
        let H := fresh in
        intros H; apply rmap_raise_inv in H; revert H; apply IH; lia
    end.
Qed.

Lemma utf8_decode_raises (bs : bytes) (e : exn) :
  Utf8.decode bs = Raise e -> e = UnicodeDecodeError.
Proof. apply (utf8_decode_raises_upto (length bs)). lia. Qed.

Lemma decode_base64_ok_inv (s : str) (data : bytes) :
  _decode_base64 s = Ok data -> b64decode s = Ok data.
Proof.
  unfold _decode_base64, except_Exception.
  destruct (b64decode s); congruence.
Qed.

Lemma Box_decrypt_pure_inv (box : Box) (ct nc plain : bytes) :
  Box_decrypt_pure box ct nc = Ok plain ->
  len nc = 24 /\ crypto_box_open_afternm ct nc (shared_key box) = Some plain.
Proof.
  unfold Box_decrypt_pure, Box_NONCE_SIZE.
  destruct (Z.eqb_spec (len nc) 24); [|discriminate]. cbn.
  destruct (crypto_box_open_afternm _ _ _); [|discriminate].
  intros H. injection H as <-. auto.
Qed.

(** [decrypt_message] returns text only when the version is the supported
    one, the private key decodes to 32 bytes, the nonce decodes to 24 bytes
    and the ephemeral key to 32, the box opens under the key shared by the
    private key and the ephemeral key, and the text is the UTF-8 reading of
    what the box held. *)
Theorem decrypt_message_returns_only_authentic (private_key : str)
    (d : dict) (w w' : world) (text : str) :
  decrypt_message private_key d w = (Ok text, w') ->
  exists (priv_key_bytes nonce_bytes ephem_bytes cipher_bytes k plain : bytes)
         (tn te tc : str),
    d !! lit "version" = Some (lit "x25519-xsalsa20-poly1305") /\
    b64decode private_key = Ok priv_key_bytes /\ len priv_key_bytes = 32 /\
    d !! lit "nonce" = Some tn /\ b64decode tn = Ok nonce_bytes /\
    len nonce_bytes = 24 /\
    d !! lit "ephemPublicKey" = Some te /\ b64decode te = Ok ephem_bytes /\
    len ephem_bytes = 32 /\
    d !! lit "ciphertext" = Some tc /\ b64decode tc = Ok cipher_bytes /\
    crypto_box_beforenm ephem_bytes priv_key_bytes = Some k /\
    crypto_box_open_afternm cipher_bytes nonce_bytes k = Some plain /\
    Utf8.decode plain = Ok text.
Proof.
  rewrite decrypt_message_eq. cbv zeta.
  destruct (negb (bool_decide (required_fields ⊆ dom d))); [discriminate|].
  unfold getitem.
  destruct (d !! lit "version") as [v|] eqn:Hv; [|discriminate].
  destruct (bool_decide (v = VERSION)) eqn:Ev; [|discriminate].
  apply bool_decide_eq_true in Ev. subst v. cbn [negb].
  destruct (_decode_base64 private_key) as [skb|] eqn:Hd; [|discriminate].
  destruct (PrivateKey_init skb) as [sk|] eqn:Hsk; [|discriminate].
  destruct (d !! lit "nonce") as [tn|] eqn:Hn; [|discriminate]. cbn [rbind].
  destruct (_decode_base64 tn) as [nb|] eqn:Dn; [|discriminate].
  destruct (d !! lit "ephemPublicKey") as [te|] eqn:He; [|discriminate].
  cbn [rbind].
  destruct (_decode_base64 te) as [eb|] eqn:De; [|discriminate].
  destruct (PublicKey_init eb) as [epk|] eqn:Hp; [|discriminate].
  destruct (d !! lit "ciphertext") as [tc|] eqn:Hc; [|discriminate].
  cbn [rbind].
  destruct (_decode_base64 tc) as [ct|] eqn:Dc; [|discriminate].
  destruct (Box_init sk epk) as [box|] eqn:Hbox; [|discriminate].
  destruct (Box_decrypt_pure box ct nb) as [plain|] eqn:Hdec; [|discriminate].
  destruct (Utf8.decode plain) as [t|] eqn:Ht; [|discriminate].
  intros H. injection H as <- _.
  apply decode_base64_ok_inv in Hd, Dn, De, Dc.
  apply PrivateKey_init_inv in Hsk as (Hraw & Hlen & _ & _).
  apply PublicKey_init_inv in Hp as (Hpraw & Hplen).
  apply Box_init_inv in Hbox. rewrite Hraw, Hpraw in Hbox.
  apply Box_decrypt_pure_inv in Hdec as (Hnl & Hopen).
  exists skb, nb, eb, ct, (shared_key box), plain, tn, te, tc.
  auto 20.
Qed.

(** [decrypt_message] raises [InvalidKeyError] exactly when the four
    fields are there, the version is the supported one, and the private key
    does not decode or [PrivateKey] refuses its bytes: the envelope is
    looked at before the key, and the key before the other fields. *)
Theorem decrypt_message_invalid_key_iff (private_key : str) (d : dict)
    (w : world) :
  fst (decrypt_message private_key d w) = Raise InvalidKeyError <->
  (required_fields ⊆ dom d /\
   d !! lit "version" = Some (lit "x25519-xsalsa20-poly1305") /\
   ~ exists priv_key_bytes sk,
       b64decode private_key = Ok priv_key_bytes /\
       PrivateKey_init priv_key_bytes = Ok sk).
Proof.
  rewrite decrypt_message_eq. cbv zeta.
  destruct (bool_decide (required_fields ⊆ dom d)) eqn:Es.
  2: { apply bool_decide_eq_false in Es. cbn [negb fst].
       split; [discriminate|intros (H & _); contradiction]. }
  apply bool_decide_eq_true in Es. cbn [negb]. unfold getitem.
  destruct (d !! lit "version") as [v|] eqn:Hv.
  2: { cbn [fst surfaced].
       split; [discriminate|intros (_ & H & _); discriminate]. }
  destruct (bool_decide (v = VERSION)) eqn:Ev.
  2: { apply bool_decide_eq_false in Ev. cbn [negb fst].
       split; [discriminate|].
       intros (_ & H & _). injection H as H. exfalso. apply Ev. exact H. }
  apply bool_decide_eq_true in Ev. subst v. cbn [negb].
  unfold _decode_base64 at 1.
  destruct (b64decode private_key) as [skb|] eqn:Hd; cbn [except_Exception].
  2: { cbn [fst]. split; [|reflexivity]. intros _.
       split; [exact Es|]. split; [reflexivity|].
       intros (x & sk & Hx & _). discriminate. }
  destruct (PrivateKey_init skb) as [sk|] eqn:Hsk.
  2: { cbn [fst]. split; [|reflexivity]. intros _.
       split; [exact Es|]. split; [reflexivity|].
       intros (x & sk' & Hx & Hy). injection Hx as <-.
       rewrite Hsk in Hy. discriminate. }
  split; [|intros (_ & _ & H); exfalso; apply H; eauto].
  intros H. exfalso. revert H.
  destruct (rbind _ _) as [nb|]; [|discriminate].
  destruct (rbind _ _) as [eb|]; [|discriminate].
  destruct (PublicKey_init eb) as [epk|]; [|discriminate].
  destruct (rbind _ _) as [ct|]; [|discriminate].
  destruct (Box_init sk epk) as [box|e] eqn:Hbox.
  2: { rewrite (Box_init_raises _ _ _ Hbox). discriminate. }
  destruct (Box_decrypt_pure box ct nb) as [plain|e] eqn:Hdec.
  2: { destruct (Box_decrypt_pure_raises _ _ _ _ Hdec) as [->| ->];
         discriminate. }
  destruct (Utf8.decode plain) as [t|e] eqn:Ht; [discriminate|].
  rewrite (utf8_decode_raises _ _ Ht). discriminate.
Qed.

End DecryptMore.

(** The envelope of ["hello"], decrypted on the small implementation. *)
Lemma decrypt_message_returns_only_authentic_witness :
  @decrypt_message Toy.nacl Toy.receiver_private Toy.envelope Toy.w0
  = (Ok Toy.hello,
     @World Toy.nacl 0%nat
       [Call_PrivateKey; Call_PublicKey; Call_Box; Call_Box_decrypt]) /\
  exists (priv_key_bytes nonce_bytes ephem_bytes cipher_bytes k plain : bytes)
         (tn te tc : str),
    Toy.envelope !! lit "version" = Some (lit "x25519-xsalsa20-poly1305") /\
    b64decode Toy.receiver_private = Ok priv_key_bytes /\
    len priv_key_bytes = 32 /\
    Toy.envelope !! lit "nonce" = Some tn /\ b64decode tn = Ok nonce_bytes /\
    len nonce_bytes = 24 /\
    Toy.envelope !! lit "ephemPublicKey" = Some te /\
    b64decode te = Ok ephem_bytes /\ len ephem_bytes = 32 /\
    Toy.envelope !! lit "ciphertext" = Some tc /\
    b64decode tc = Ok cipher_bytes /\
    @crypto_box_beforenm Toy.nacl ephem_bytes priv_key_bytes = Some k /\
    @crypto_box_open_afternm Toy.nacl cipher_bytes nonce_bytes k = Some plain /\
    Utf8.decode plain = Ok Toy.hello.
Proof.
  assert (H : @decrypt_message Toy.nacl Toy.receiver_private Toy.envelope Toy.w0
              = (Ok Toy.hello,
                 @World Toy.nacl 0%nat
                   [Call_PrivateKey; Call_PublicKey; Call_Box; Call_Box_decrypt]))
    by (vm_compute; reflexivity).
  split; [exact H|].
  exact (@decrypt_message_returns_only_authentic Toy.nacl _ _ _ _ _ H).
Defined.

(** ** Two refused envelopes, run on the small implementation *)

(** A nonce of 23 bytes. *)
Lemma decrypt_message_nonce_length_witness :
  (b64decode (b64text (repeat x01 23)) = Ok (repeat x01 23) /\
   len (repeat x01 23) <> 24) /\
  fst (@decrypt_message Toy.nacl Toy.receiver_private
         (Toy.with_field (lit "nonce") (b64text (repeat x01 23))) Toy.w0)
  = Raise EncryptionError.
Proof.
  pose (d := Toy.with_field (lit "nonce") (b64text (repeat x01 23))).
  pose (sk := {| sk_raw := repeat x00 32;
                 public_key := {| pk_raw := repeat x00 32 |} |}).
  assert (Hv : d !! lit "version" = Some VERSION) by (vm_compute; reflexivity).
  assert (Hd : b64decode Toy.receiver_private = Ok (repeat x00 32))
    by (vm_compute; reflexivity).
  assert (Hsk : @PrivateKey_init Toy.nacl (repeat x00 32) = Ok sk)
    by (vm_compute; reflexivity).
  assert (Hn : d !! lit "nonce" = Some (b64text (repeat x01 23)))
    by (vm_compute; reflexivity).
  assert (Dn : b64decode (b64text (repeat x01 23)) = Ok (repeat x01 23))
    by (vm_compute; reflexivity).
  assert (He : d !! lit "ephemPublicKey" = Some (b64text (repeat x00 32)))
    by (vm_compute; reflexivity).
  assert (De : b64decode (b64text (repeat x00 32)) = Ok (repeat x00 32))
    by (vm_compute; reflexivity).
  assert (Hl : len (repeat x00 32) = 32) by (vm_compute; reflexivity).
  assert (Hc : d !! lit "ciphertext"
               = Some (b64text (Toy.tag ++ List.map byte_of Toy.hello)))
    by (vm_compute; reflexivity).
  assert (Dc : b64decode (b64text (Toy.tag ++ List.map byte_of Toy.hello))
               = Ok (Toy.tag ++ List.map byte_of Toy.hello))
    by (vm_compute; reflexivity).
  assert (Hlen : len (repeat x01 23) <> 24) by (vm_compute; discriminate).
  split; [exact (conj Dn Hlen)|].
  exact (@decrypt_message_nonce_length Toy.nacl Toy.receiver_private d Toy.w0
           _ _ _ _ sk _ _ _ Hv Hd Hsk Hn Dn He De Hl Hc Dc Hlen).
Defined.

(** A ciphertext whose authenticator does not verify. *)
Lemma decrypt_message_rejected_witness :
  @crypto_box_open_afternm Toy.nacl (repeat x02 21) (repeat x01 24)
    (repeat x01 32) = None /\
  fst (@decrypt_message Toy.nacl Toy.receiver_private
         (Toy.with_field (lit "ciphertext") (b64text (repeat x02 21))) Toy.w0)
  = Raise EncryptionError.
Proof.
  pose (d := Toy.with_field (lit "ciphertext") (b64text (repeat x02 21))).
  pose (sk := {| sk_raw := repeat x00 32;
                 public_key := {| pk_raw := repeat x00 32 |} |}).
  assert (Hv : d !! lit "version" = Some VERSION) by (vm_compute; reflexivity).
  assert (Hd : b64decode Toy.receiver_private = Ok (repeat x00 32))
    by (vm_compute; reflexivity).
  assert (Hsk : @PrivateKey_init Toy.nacl (repeat x00 32) = Ok sk)
    by (vm_compute; reflexivity).
  assert (Hn : d !! lit "nonce" = Some (b64text (repeat x01 24)))
    by (vm_compute; reflexivity).
  assert (Dn : b64decode (b64text (repeat x01 24)) = Ok (repeat x01 24))
    by (vm_compute; reflexivity).
  assert (He : d !! lit "ephemPublicKey" = Some (b64text (repeat x00 32)))
    by (vm_compute; reflexivity).
  assert (De : b64decode (b64text (repeat x00 32)) = Ok (repeat x00 32))
    by (vm_compute; reflexivity).
  assert (Hl : len (repeat x00 32) = 32) by (vm_compute; reflexivity).
  assert (Hc : d !! lit "ciphertext" = Some (b64text (repeat x02 21)))
    by (vm_compute; reflexivity).
  assert (Dc : b64decode (b64text (repeat x02 21)) = Ok (repeat x02 21))
    by (vm_compute; reflexivity).
  assert (Hk : @crypto_box_beforenm Toy.nacl (repeat x00 32) (repeat x00 32)
               = Some (repeat x01 32)) by reflexivity.
  assert (Hopen : @crypto_box_open_afternm Toy.nacl (repeat x02 21)
                    (repeat x01 24) (repeat x01 32) = None)
    by (vm_compute; reflexivity).
  split; [exact Hopen|].
  exact (@decrypt_message_rejected Toy.nacl Toy.receiver_private d Toy.w0
           _ _ _ _ _ sk _ _ _ Hv Hd Hsk Hn Dn He De Hl Hc Dc Hk Hopen).
Defined.
